(** * GitUtils: the wrapper between exegol and the Git SDK

    A shallow embedding of [wrapper/utils/GitUtils.py].  The class keeps three
    private fields ([__gitRepo], [__gitRemote], [__fetchBranchInfo]) and
    delegates every version-control primitive to GitPython.  The SDK objects
    are modelled by the data they expose to the wrapper; the methods of the
    class are transcribed statement by statement in a state-and-exception
    monad.  Calls to [logger] produce no value and touch neither the object
    nor the repository, so only the expressions they evaluate are kept. *)

From Stdlib Require Import List String Ascii Bool Arith NArith Lia.
Import ListNotations.
Local Open Scope string_scope.
Local Open Scope list_scope.

Set Implicit Arguments.

(** ** Commits *)

(** A commit is identified by its content, which includes its parents: the
    commit graph is a Merkle DAG, hence the inductive type. *)
#[warnings="-register-all"]
Inductive Commit : Type :=
| MkCommit (tree : nat) (parents : list Commit).

Definition commit_parents (c : Commit) : list Commit :=
  match c with MkCommit _ ps => ps end.

Definition commit_tree (c : Commit) : nat :=
  match c with MkCommit t _ => t end.

Fixpoint commit_eqb (a b : Commit) {struct a} : bool :=
  match a, b with
  | MkCommit i ps, MkCommit j qs =>
      Nat.eqb i j &&
      (fix all2 (l : list Commit) (r : list Commit) {struct l} : bool :=
         match l, r with
         | [], [] => true
         | p :: l', q :: r' => commit_eqb p q && all2 l' r'
         | _, _ => false
         end) ps qs
  end.

(** [Repo.is_ancestor(ancestor_rev, rev)], that is
    [git merge-base --is-ancestor]: a commit is an ancestor of itself and of
    every commit that has an ancestor of it among its parents. *)
Fixpoint is_ancestor (a b : Commit) {struct b} : bool :=
  commit_eqb a b ||
  match b with
  | MkCommit _ ps => existsb (fun p => is_ancestor a p) ps
  end.

Fixpoint commit_size (c : Commit) : nat :=
  match c with
  | MkCommit _ ps => S (list_sum (map commit_size ps))
  end.

(** Induction over a commit with the hypothesis at every parent. *)
Section CommitInduction.
Variable P : Commit -> Prop.
Hypothesis step : forall t ps, Forall P ps -> P (MkCommit t ps).

Fixpoint Commit_nested_ind (c : Commit) : P c :=
  match c with
  | MkCommit t ps =>
      step t
        ((fix parents_ok (l : list Commit) : Forall P l :=
            match l with
            | [] => Forall_nil P
            | p :: l' => Forall_cons p (Commit_nested_ind p) (parents_ok l')
            end) ps)
  end.
End CommitInduction.

(** ** Strings *)

(** Python's [str.split(sep)] for a one-character separator: the pieces
    between the occurrences of [sep]; never an empty list. *)
Fixpoint split_on (sep : ascii) (s : string) : list string :=
  match s with
  | EmptyString => [EmptyString]
  | String c rest =>
      if Ascii.eqb c sep then EmptyString :: split_on sep rest
      else match split_on sep rest with
           | [] => [String c EmptyString]
           | piece :: pieces => String c piece :: pieces
           end
  end.

Definition slash : ascii := "/"%char.

Fixpoint has_slash (s : string) : bool :=
  match s with
  | EmptyString => false
  | String c rest => Ascii.eqb c slash || has_slash rest
  end.

(** The part of a name before its first separator. *)
Definition first_segment (s : string) : string :=
  hd EmptyString (split_on slash s).

(** The f-string [f'{remote}/{branch}'], also the name of a remote ref. *)
Definition ref_name (remote branch : string) : string :=
  (remote ++ "/" ++ branch)%string.
Arguments ref_name : simpl never.

(** ** SDK objects *)

(** [git.FetchInfo]: one entry of the list returned by [Remote.fetch()]. *)
Record FetchInfo : Type := MkFetchInfo {
  fi_name : string;                 (* [name]: the remote ref, "origin/<branch>" *)
  fi_commit : Commit;               (* [commit]: the commit the ref now points to *)
  fi_flags : N;                     (* [flags] *)
  fi_old_commit : option Commit;    (* [old_commit] *)
  fi_remote_ref_path : string       (* [remote_ref_path] *)
}.

Module FetchFlag.
Definition NEW_TAG : N := 1.
Definition NEW_HEAD : N := 2.
Definition HEAD_UPTODATE : N := 4.
Definition TAG_UPDATE : N := 8.
Definition REJECTED : N := 16.
Definition FORCED_UPDATE : N := 32.
Definition FAST_FORWARD : N := 64.
Definition ERROR : N := 128.
End FetchFlag.

(** [git.Remote]: the wrapper only uses its name (through [str()]), [fetch()]
    and [pull()]. *)
Record Remote : Type := MkRemote {
  remote_name : string
}.

(** The state of the working tree as [Repo.is_dirty()] sees it. *)
Record Status : Type := MkStatus {
  staged : list string;      (* paths with changes in the index *)
  modified : list string;    (* tracked paths changed in the working tree *)
  untracked : list string    (* paths unknown to git and not ignored *)
}.

(** What [git pull] does when the local branch and the one it merges have
    diverged: refuse (no [pull.rebase]/[pull.ff] setting on a recent git, or
    [pull.ff=only]) or merge ([pull.rebase=false], or an older git).
    Rebasing pulls ([pull.rebase=true]) are not modelled. *)
Inductive Reconcile : Type :=
| Refuse
| Merge.

(** [git.Repo]: the on-disk repository behind the handle. [heads] and
    [remotes] are [IterableList]s, searched by name from the front. *)
Record Repo : Type := MkRepo {
  active_branch : option string;          (* [None]: detached HEAD *)
  heads : list (string * Commit);         (* local branches *)
  remotes : list Remote;
  tracking : list (string * Commit);      (* refs/remotes/origin/<branch> *)
  status : Status;
  upstream : list (string * (string * string));
                                          (* [branch.<name>.remote] and
                                             [branch.<name>.merge] *)
  reconcile : Reconcile;
  trees : list (nat * list string)        (* the paths recorded in each tree,
                                             by tree id (content-addressed,
                                             so the same on the server) *)
}.

(** The paths a tree records. *)
Definition tree_paths (r : Repo) (t : nat) : list string :=
  match find (fun entry => Nat.eqb (fst entry) t) (trees r) with
  | Some entry => snd entry
  | None => []
  end.

(** Whether writing tree [t] to the working tree would overwrite an untracked
    file; git then refuses to check out or merge. *)
Definition overwrites_untracked (r : Repo) (t : nat) : bool :=
  existsb (fun p => existsb (String.eqb p) (tree_paths r t))
          (untracked (status r)).

(** [Repo.is_dirty()] with its default arguments
    ([index=True, working_tree=True, untracked_files=False]). *)
Definition is_dirty (r : Repo) : bool :=
  match staged (status r), modified (status r) with
  | [], [] => false
  | _, _ => true
  end.

(** Lookup by name in an [IterableList]: the first item with that name. *)
Fixpoint assoc {A : Type} (k : string) (l : list (string * A)) : option A :=
  match l with
  | [] => None
  | (k', v) :: l' => if String.eqb k k' then Some v else assoc k l'
  end.

Fixpoint assoc_set {A : Type} (k : string) (v : A) (l : list (string * A))
  : list (string * A) :=
  match l with
  | [] => [(k, v)]
  | (k', v') :: l' =>
      if String.eqb k k' then (k, v) :: l' else (k', v') :: assoc_set k v l'
  end.

Definition find_remote (n : string) (l : list Remote) : option Remote :=
  find (fun r => String.eqb (remote_name r) n) l.

Definition find_info (n : string) (l : list FetchInfo) : option FetchInfo :=
  find (fun fi => String.eqb (fi_name fi) n) l.

(** ** The object, its environment, and the monad of its methods *)

(** The three private fields of the class.  The value under [gitRepo] is the
    repository the handle refers to; SDK calls that change the repository
    change it in place. *)
Record GitUtils : Type := MkGitUtils {
  gitRepo : option Repo;                (* [self.__gitRepo] *)
  gitRemote : option Remote;            (* [self.__gitRemote] *)
  fetchBranchInfo : option FetchInfo    (* [self.__fetchBranchInfo] *)
}.

(** What lies outside the process: the branches of origin on the server (in
    the order the server advertises them), whether the server can be reached,
    and what git's merge of the server's commit into the local one gives: the
    paths in conflict (none when it merges cleanly) and the tree it records. *)
Record Env : Type := MkEnv {
  server_heads : list (string * Commit);
  network_up : bool;
  merge_conflicts : list string;
  merge_tree : nat
}.

(** SDK calls that leave the process or rewrite the working tree. *)
Inductive Event : Type :=
| EvFetch
| EvPull
| EvCheckout (branch : string).

Record State : Type := MkState {
  self : GitUtils;
  env : Env;
  trace : list Event      (* most recent first *)
}.

Inductive Exn : Type :=
| AttributeError              (* attribute access on [None] *)
| IndexError                  (* no item with that name, or index out of range *)
| TypeError                   (* [active_branch] on a detached HEAD *)
| GitCommandError             (* the git command failed *)
| InvalidGitRepositoryError.

Inductive Result (A : Type) : Type :=
| Ok (a : A)
| Raise (e : Exn).
Arguments Raise {A} e.

Definition M (A : Type) : Type := State -> Result A * State.

Definition ret {A : Type} (a : A) : M A := fun s => (Ok a, s).

Definition raise {A : Type} (e : Exn) : M A := fun s => (Raise e, s).

Definition bind {A B : Type} (m : M A) (k : A -> M B) : M B :=
  fun s =>
    match m s with
    | (Ok a, s') => k a s'
    | (Raise e, s') => (Raise e, s')
    end.

Notation "x <- m ;; k" := (bind m (fun x => k))
  (at level 61, m at next level, right associativity).
Notation "m ;;; k" := (bind m (fun _ => k))
  (at level 61, right associativity).

Definition exn_eqb (a b : Exn) : bool :=
  match a, b with
  | AttributeError, AttributeError
  | IndexError, IndexError
  | TypeError, TypeError
  | GitCommandError, GitCommandError
  | InvalidGitRepositoryError, InvalidGitRepositoryError => true
  | _, _ => false
  end.

(** [try: body except e: handler] *)
Definition try_except {A : Type} (body : M A) (e : Exn) (handler : M A) : M A :=
  fun s =>
    match body s with
    | (Raise e', s') => if exn_eqb e e' then handler s' else (Raise e', s')
    | r => r
    end.

Definition get_self : M GitUtils := fun s => (Ok (self s), s).

Definition set_gitRepo (r : option Repo) : M unit :=
  fun s => (Ok tt,
            MkState (MkGitUtils r (gitRemote (self s)) (fetchBranchInfo (self s)))
                    (env s) (trace s)).

Definition set_gitRemote (r : option Remote) : M unit :=
  fun s => (Ok tt,
            MkState (MkGitUtils (gitRepo (self s)) r (fetchBranchInfo (self s)))
                    (env s) (trace s)).

Definition set_fetchBranchInfo (fi : option FetchInfo) : M unit :=
  fun s => (Ok tt,
            MkState (MkGitUtils (gitRepo (self s)) (gitRemote (self s)) fi)
                    (env s) (trace s)).

Definition emit (e : Event) : M unit :=
  fun s => (Ok tt, MkState (self s) (env s) (e :: trace s)).

Definition get_env : M Env := fun s => (Ok (env s), s).

(** Attribute access on an [Optional] field: [AttributeError] on [None]. *)
Definition deref {A : Type} (o : option A) : M A :=
  match o with
  | Some a => ret a
  | None => raise AttributeError
  end.

(** Subscript of an [IterableList] or a list: [IndexError] when absent. *)
Definition item {A : Type} (o : option A) : M A :=
  match o with
  | Some a => ret a
  | None => raise IndexError
  end.

(** ** SDK primitives *)

Definition with_tracking (r : Repo) (t : list (string * Commit)) : Repo :=
  MkRepo (active_branch r) (heads r) (remotes r) t (status r)
         (upstream r) (reconcile r) (trees r).

Definition with_heads (r : Repo) (h : list (string * Commit)) : Repo :=
  MkRepo (active_branch r) h (remotes r) (tracking r) (status r)
         (upstream r) (reconcile r) (trees r).

Definition with_active_branch (r : Repo) (b : option string) : Repo :=
  MkRepo b (heads r) (remotes r) (tracking r) (status r)
         (upstream r) (reconcile r) (trees r).

Definition with_status (r : Repo) (st : Status) : Repo :=
  MkRepo (active_branch r) (heads r) (remotes r) (tracking r) st
         (upstream r) (reconcile r) (trees r).

(** The [FetchInfo] git reports for one branch of the server, given the
    remote-tracking refs before the fetch. *)
Definition fetch_info (rn : string) (old : list (string * Commit))
           (b : string * Commit) : FetchInfo :=
  let name := ref_name rn (fst b) in
  match assoc (fst b) old with
  | None => MkFetchInfo name (snd b) FetchFlag.NEW_HEAD None (fst b)
  | Some o =>
      if commit_eqb o (snd b)
      then MkFetchInfo name (snd b) FetchFlag.HEAD_UPTODATE None (fst b)
      else if is_ancestor o (snd b)
      then MkFetchInfo name (snd b) FetchFlag.FAST_FORWARD (Some o) (fst b)
      else MkFetchInfo name (snd b) FetchFlag.FORCED_UPDATE (Some o) (fst b)
  end.

Definition update_tracking (old new : list (string * Commit))
  : list (string * Commit) :=
  fold_left (fun t b => assoc_set (fst b) (snd b) t) new old.

(** [Remote.fetch()]: contacts the server, moves the remote-tracking refs to
    the server's commits and returns one [FetchInfo] per branch.  The entries
    git adds for newly fetched tags and the order in which git lists the
    entries are not modelled; [isUpToDate] finds its entry by name.  A
    [Remote] is a view of its [Repo]; the wrapper never holds one without the
    other, and the call fails if it did. *)
Definition fetch (r : Remote) : M (list FetchInfo) :=
  emit EvFetch ;;;
  e <- get_env ;;
  if negb (network_up e) then raise GitCommandError else
  g <- get_self ;;
  match gitRepo g with
  | None => raise GitCommandError
  | Some repo =>
      set_gitRepo
        (Some (with_tracking repo (update_tracking (tracking repo) (server_heads e)))) ;;;
      ret (map (fetch_info (remote_name r) (tracking repo)) (server_heads e))
  end.

(** [Remote.pull()], that is [git pull <remote>]: a fetch, then the merge of
    the branch configured as upstream of the checked-out branch.  It fails on
    a detached HEAD, without an upstream on this remote, or when the server
    does not have the upstream branch.  Otherwise: nothing when the server's
    commit is already contained; a fast-forward when the local commit is an
    ancestor of it; and when the two have diverged a refusal or a merge,
    as configured.  Git refuses to overwrite an untracked file, and a merge
    that conflicts fails and leaves the conflicting paths in the index. *)
Definition pull (r : Remote) : M unit :=
  emit EvPull ;;;
  e <- get_env ;;
  if negb (network_up e) then raise GitCommandError else
  g <- get_self ;;
  match gitRepo g with
  | None => raise GitCommandError
  | Some repo =>
      let repo1 := with_tracking repo (update_tracking (tracking repo) (server_heads e)) in
      set_gitRepo (Some repo1) ;;;
      match active_branch repo1 with
      | None => raise GitCommandError
      | Some b =>
          match assoc b (upstream repo1) with
          | None => raise GitCommandError
          | Some (their_remote, their_branch) =>
              if negb (String.eqb their_remote (remote_name r))
              then raise GitCommandError else
              match assoc their_branch (server_heads e), assoc b (heads repo1) with
              | Some theirs, Some ours =>
                  if is_ancestor theirs ours then ret tt
                  else if is_ancestor ours theirs
                  then
                    if overwrites_untracked repo1 (commit_tree theirs)
                    then raise GitCommandError
                    else set_gitRepo
                           (Some (with_heads repo1 (assoc_set b theirs (heads repo1))))
                  else
                    match reconcile repo1 with
                    | Refuse => raise GitCommandError
                    | Merge =>
                        if overwrites_untracked repo1 (merge_tree e)
                        then raise GitCommandError
                        else
                          match merge_conflicts e with
                          | [] =>
                              set_gitRepo
                                (Some (with_heads repo1
                                         (assoc_set b
                                            (MkCommit (merge_tree e) [ours; theirs])
                                            (heads repo1))))
                          | conflict :: conflicts =>
                              set_gitRepo
                                (Some (with_status repo1
                                         (MkStatus
                                            ((conflict :: conflicts)
                                               ++ staged (status repo1))
                                            (modified (status repo1))
                                            (untracked (status repo1))))) ;;;
                              raise GitCommandError
                          end
                    end
              | _, _ => raise GitCommandError
              end
          end
      end
  end.

(** [Head.checkout()] of the branch [b], which points to [target], when no
    tracked file has a pending change: git refuses when an untracked file
    would be overwritten, and switches the working tree otherwise. *)
Definition head_checkout (b : string) (target : Commit) : M unit :=
  g <- get_self ;;
  repo <- deref (gitRepo g) ;;
  if overwrites_untracked repo (commit_tree target)
  then raise GitCommandError
  else
    emit (EvCheckout b) ;;;
    set_gitRepo (Some (with_active_branch repo (Some b))).

(** ** The methods of [GitUtils] *)

(** [getCurrentBranch]: [str(self.__gitRepo.active_branch)]. *)
Definition getCurrentBranch : M string :=
  g <- get_self ;;
  repo <- deref (gitRepo g) ;;
  match active_branch repo with
  | Some b => ret b
  | None => raise TypeError
  end.

(** [__init__]; [disk] is what [Repo(path)] finds at
    [ConstantConfig.root_path], [None] when it is not a git repository. *)
Definition init (disk : option Repo) : M unit :=
  set_gitRepo None ;;;
  set_gitRemote None ;;;
  set_fetchBranchInfo None ;;;
  try_except
    (repo <- match disk with
             | Some r => ret r
             | None => raise InvalidGitRepositoryError
             end ;;
     set_gitRepo (Some repo) ;;;
     getCurrentBranch ;;;
     g <- get_self ;;
     repo' <- deref (gitRepo g) ;;
     if Nat.ltb 0 (List.length (remotes repo'))
     then (origin <- item (find_remote "origin" (remotes repo')) ;;
           set_gitRemote (Some origin))
     else ret tt)
    InvalidGitRepositoryError
    (ret tt).

(** The loop of [listBranch]: [result.append(branch.name.split('/')[1])]. *)
Fixpoint listBranch_loop (infos : list FetchInfo) (result : list string)
  : M (list string) :=
  match infos with
  | [] => ret result
  | branch :: rest =>
      name <- item (nth_error (split_on slash (fi_name branch)) 1) ;;
      listBranch_loop rest (result ++ [name])
  end.

(** [listBranch]: the names of the branches of the remote. *)
Definition listBranch : M (list string) :=
  g <- get_self ;;
  match gitRemote g with
  | None => ret []
  | Some remote =>
      infos <- fetch remote ;;
      listBranch_loop infos []
  end.

(** [safeCheck]: false when there is no repository or a pending change. *)
Definition safeCheck : M bool :=
  g <- get_self ;;
  match gitRepo g with
  | None => ret false
  | Some repo =>
      (* [is_dirty()] is asked twice: once to log the warning, once to answer *)
      ret (negb (is_dirty repo))
  end.

(** [isUpToDate]; the tests on the bits of [flags] only choose what is
    logged and are left out. *)
Definition isUpToDate (branch : option string) : M bool :=
  branch <- match branch with
            | None => getCurrentBranch
            | Some b => ret b
            end ;;
  g <- get_self ;;
  repo <- deref (gitRepo g) ;;
  current_commit <- item (assoc branch (heads repo)) ;;
  remote <- deref (gitRemote g) ;;
  fetch_result <- fetch remote ;;
  info <- item (find_info (ref_name (remote_name remote) branch) fetch_result) ;;
  set_fetchBranchInfo (Some info) ;;;
  g <- get_self ;;
  info <- deref (fetchBranchInfo g) ;;
  let remote_commit := fi_commit info in
  repo <- deref (gitRepo g) ;;
  ret (is_ancestor remote_commit current_commit).

(** [update]; the f-string of the log line before the pull evaluates
    [getCurrentBranch()]. *)
Definition update : M bool :=
  safe <- safeCheck ;;
  if negb safe then ret false else
  uptodate <- isUpToDate None ;;
  if uptodate then ret false else
  g <- get_self ;;
  match gitRemote g with
  | Some remote =>
      getCurrentBranch ;;;
      pull remote ;;;
      ret true
  | None => ret false
  end.

(** [checkout]: [self.__gitRepo.heads[branch].checkout()] behind two guards. *)
Definition checkout (branch : string) : M bool :=
  safe <- safeCheck ;;
  if negb safe then ret false else
  current <- getCurrentBranch ;;
  if String.eqb branch current then ret false else
  g <- get_self ;;
  repo <- deref (gitRepo g) ;;
  head <- item (assoc branch (heads repo)) ;;
  head_checkout branch head ;;;
  ret true.

(** ** Observations on states *)

(** The branch [isUpToDate] works on: its argument, or the current branch. *)
Definition branch_or_current (branch : option string) (r : Repo) : option string :=
  match branch with
  | Some b => Some b
  | None => active_branch r
  end.

Definition is_pull (e : Event) : bool :=
  match e with EvPull => true | _ => false end.

Definition is_network (e : Event) : bool :=
  match e with EvFetch | EvPull => true | EvCheckout _ => false end.

Definition pulls (s : State) : nat := List.length (filter is_pull (trace s)).

Definition network_accesses (s : State) : nat :=
  List.length (filter is_network (trace s)).

(** The part of the repository the user works with: branches, checked-out
    branch and working tree (everything but the remote-tracking refs). *)
Definition local_view (s : State)
  : option (option string * list (string * Commit) * Status) :=
  match gitRepo (self s) with
  | Some r => Some (active_branch r, heads r, status r)
  | None => None
  end.

(** The state with another value in [__fetchBranchInfo]. *)
Definition with_info (f : option FetchInfo) (s : State) : State :=
  MkState (MkGitUtils (gitRepo (self s)) (gitRemote (self s)) f) (env s) (trace s).

(** Two runs agree when they give the same result and end in states that
    differ at most in [__fetchBranchInfo]. *)
Definition agree {A : Type} (x y : Result A * State) : Prop :=
  fst x = fst y /\ with_info None (snd x) = with_info None (snd y).

(** The state a successful [fetch()] of [isUpToDate] leaves behind. *)
Definition fetched (s : State) (repo : Repo) (remote : Remote) (info : FetchInfo)
  : State :=
  MkState
    (MkGitUtils
       (Some (with_tracking repo
                (update_tracking (tracking repo) (server_heads (env s)))))
       (Some remote) (Some info))
    (env s) (EvFetch :: trace s).

(** [n] calls of [update()] in a row: the results, first call first, and the
    final state. *)
Fixpoint update_times (n : nat) (s : State) : list (Result bool) * State :=
  match n with
  | O => ([], s)
  | S n' =>
      let (r, s') := update s in
      let (rs, s'') := update_times n' s' in
      (r :: rs, s'')
  end.

(** [update] past its two guards: the pull, and [True] when it returns. *)
Definition pulled (remote : Remote) (s1 : State) : Result bool * State :=
  match pull remote s1 with
  | (Ok _, s2) => (Ok true, s2)
  | (Raise e, s2) => (Raise e, s2)
  end.

(** Whether the object holds a repository. *)
Definition loaded (s : State) : bool :=
  match gitRepo (self s) with Some _ => true | None => false end.



(** The state a fetch leaves behind when the entry looked for is missing. *)
Definition fetched_only (s : State) (repo : Repo) : State :=
  MkState
    (MkGitUtils
       (Some (with_tracking repo
                (update_tracking (tracking repo) (server_heads (env s)))))
       (gitRemote (self s)) (fetchBranchInfo (self s)))
    (env s) (EvFetch :: trace s).

(** The state after an SDK call that failed before doing anything. *)
Definition attempted (ev : Event) (s : State) : State :=
  MkState (self s) (env s) (ev :: trace s).

(** ** Sample repositories *)

Definition commit_A : Commit := MkCommit 1 [].
Definition commit_B : Commit := MkCommit 2 [commit_A].
Definition commit_C : Commit := MkCommit 3 [commit_A].

Definition origin : Remote := MkRemote "origin".

(** The trees of the sample commits. *)
Definition sample_trees : list (nat * list string) :=
  [(1, ["README.md"]);
   (2, ["README.md"; "CHANGES.md"]);
   (3, ["README.md"; "local.txt"]);
   (4, ["README.md"; "CHANGES.md"; "local.txt"])].

Definition clean : Status := MkStatus [] [] [].
Definition dirty : Status := MkStatus [] ["README.md"] [].

(** A repository on [main] at [c], with branch [dev] at [commit_A]. *)
Definition repo_at (c : Commit) (st : Status) (rs : list Remote) : Repo :=
  MkRepo (Some "main") [("main", c); ("dev", commit_A)] rs [] st
         [("main", ("origin", "main")); ("dev", ("origin", "dev"))]
         Refuse sample_trees.

Definition online (srv : list (string * Commit)) : Env := MkEnv srv true [] 4.

(** A freshly allocated object in an environment. *)
Definition fresh (e : Env) : State := MkState (MkGitUtils None None None) e [].

(** The object after [GitUtils()] on [disk]. *)
Definition constructed (disk : option Repo) (e : Env) : State :=
  snd (init disk (fresh e)).

(** Local [main] and the server's [main] at the same commit. *)
Definition in_sync : State :=
  constructed (Some (repo_at commit_A clean [origin])) (online [("main", commit_A)]).

(** The server's [main] one commit ahead of the local one. *)
Definition behind : State :=
  constructed (Some (repo_at commit_A clean [origin])) (online [("main", commit_B)]).

(** As [behind], with an uncommitted change in the working tree. *)
Definition behind_dirty : State :=
  constructed (Some (repo_at commit_A dirty [origin])) (online [("main", commit_B)]).

(** The configured path is not a git repository. *)
Definition degraded : State := constructed None (online [("main", commit_B)]).

(** A clean repository without any remote. *)
Definition no_remote : State :=
  constructed (Some (repo_at commit_A clean [])) (online [("main", commit_B)]).

(** As [in_sync], with a stale entry left in [__fetchBranchInfo]. *)
Definition stale_info : FetchInfo :=
  MkFetchInfo "origin/old" commit_C FetchFlag.ERROR None "old".

(** The server has a branch whose name contains a separator. *)
Definition slashed : State :=
  constructed (Some (repo_at commit_A clean [origin]))
              (online [("main", commit_A); ("feature/x", commit_B)]).

(** A repository with a detached HEAD. *)
Definition repo_detached : Repo :=
  MkRepo None [("main", commit_A)] [origin] [] clean [] Refuse sample_trees.

(** A repository whose only remote is not called origin. *)
Definition repo_upstream : Repo :=
  repo_at commit_A clean [MkRemote "upstream"].

(** As [behind], with the server out of reach. *)
Definition offline : State :=
  constructed (Some (repo_at commit_A clean [origin]))
              (MkEnv [("main", commit_B)] false [] 4).

(** The server has no branch [main]. *)
Definition server_without_main : State :=
  constructed (Some (repo_at commit_A clean [origin])) (online [("dev", commit_A)]).

(** Local [main] and the server's [main] have diverged, and merging them
    conflicts. *)
Definition conflicting : State :=
  constructed (Some (repo_at commit_C clean [origin]))
              (MkEnv [("main", commit_B)] true ["README.md"] 4).

(** On [main], with a branch [release] whose tree has a file that lies
    untracked in the working tree. *)
Definition repo_release : Repo :=
  MkRepo (Some "main") [("main", commit_A); ("release", commit_B)] [origin] []
         (MkStatus [] [] ["CHANGES.md"])
         [("main", ("origin", "main"))] Refuse sample_trees.

(** [repo_release] loaded, with the server's [main] one commit ahead. *)
Definition untracked_only : State :=
  constructed (Some repo_release) (online [("main", commit_B)]).

(** On [main], whose upstream is the branch [dev] of origin; the server's
    [main] is one commit ahead and its [dev] is where the local [main] is. *)
Definition tracks_dev : State :=
  constructed
    (Some (MkRepo (Some "main") [("main", commit_A)] [origin] [] clean
                  [("main", ("origin", "dev"))] Refuse sample_trees))
    (online [("main", commit_B); ("dev", commit_A)]).

(** Local [main] and the server's [main] have diverged, and pulls are
    configured to merge; [conflicts] are the paths the merge conflicts on. *)
Definition diverged_merging (conflicts : list string) : State :=
  constructed
    (Some (MkRepo (Some "main") [("main", commit_C)] [origin] [] clean
                  [("main", ("origin", "main"))] Merge sample_trees))
    (MkEnv [("main", commit_B)] true conflicts 4).

(** ** Facts about commits *)

Lemma commit_eqb_eq (a b : Commit) : commit_eqb a b = true <-> a = b.
Proof.
  revert b. induction a as [t ps IH] using Commit_nested_ind.
  intros [u qs]. simpl. rewrite andb_true_iff, Nat.eqb_eq.
  assert (L : (fix all2 (l r : list Commit) {struct l} : bool :=
                 match l, r with
                 | [], [] => true
                 | p :: l', q :: r' => commit_eqb p q && all2 l' r'
                 | _, _ => false
                 end) ps qs = true <-> ps = qs).
  { clear t u. revert qs. induction IH as [|p ps Hp _ IHps]; intros [|q qs].
    - tauto.
    - split; discriminate.
    - split; discriminate.
    - rewrite andb_true_iff, Hp, IHps. split.
      + intros [-> ->]. reflexivity.
      + intros E. injection E as -> ->. tauto. }
  rewrite L. split.
  - intros [-> ->]. reflexivity.
  - intros E. injection E as -> ->. tauto.
Qed.

Lemma commit_eqb_refl (a : Commit) : commit_eqb a a = true.
Proof. apply commit_eqb_eq. reflexivity. Qed.

Lemma commit_eqb_neq (a b : Commit) : a <> b -> commit_eqb a b = false.
Proof.
  intros N. destruct (commit_eqb a b) eqn:E; [|reflexivity].
  apply commit_eqb_eq in E. contradiction.
Qed.

Lemma is_ancestor_unfold (a b : Commit) :
  is_ancestor a b =
  commit_eqb a b || existsb (fun p => is_ancestor a p) (commit_parents b).
Proof. destruct b; reflexivity. Qed.

Lemma is_ancestor_refl (a : Commit) : is_ancestor a a = true.
Proof. rewrite is_ancestor_unfold, commit_eqb_refl. reflexivity. Qed.

Lemma parent_smaller (p : Commit) (ps : list Commit) :
  In p ps -> commit_size p <= list_sum (map commit_size ps).
Proof.
  induction ps as [|q ps IH]; simpl; [tauto|].
  intros [-> | H]; [lia | specialize (IH H); lia].
Qed.

(** An ancestor is the commit itself or a strictly smaller one. *)
Lemma is_ancestor_size (a b : Commit) :
  is_ancestor a b = true -> a = b \/ commit_size a < commit_size b.
Proof.
  induction b as [t ps IH] using Commit_nested_ind.
  rewrite is_ancestor_unfold, orb_true_iff, existsb_exists. simpl commit_parents.
  intros [E | [p [Hin Hp]]].
  - left. apply commit_eqb_eq. exact E.
  - right. rewrite Forall_forall in IH.
    pose proof (parent_smaller p ps Hin) as Hle.
    change (commit_size (MkCommit t ps)) with (S (list_sum (map commit_size ps))).
    destruct (IH p Hin Hp) as [-> | Hlt]; lia.
Qed.

(** A strict descendant is never an ancestor. *)
Lemma strict_descendant_not_ancestor (a b : Commit) :
  is_ancestor a b = true -> a <> b -> is_ancestor b a = false.
Proof.
  intros Hab Hne.
  destruct (is_ancestor b a) eqn:Hba; [|reflexivity].
  destruct (is_ancestor_size _ _ Hab) as [-> | H1]; [contradiction|].
  destruct (is_ancestor_size _ _ Hba) as [-> | H2]; [contradiction|].
  lia.
Qed.

Lemma is_ancestor_parent (a : Commit) (t : nat) (ps : list Commit) :
  In a ps -> is_ancestor a (MkCommit t ps) = true.
Proof.
  intros Hin. rewrite is_ancestor_unfold. apply orb_true_iff. right.
  apply existsb_exists. exists a. split; [exact Hin | apply is_ancestor_refl].
Qed.

(** ** Facts about the SDK primitives *)

Lemma assoc_set_same {A : Type} (k : string) (v : A) (l : list (string * A)) :
  assoc k (assoc_set k v l) = Some v.
Proof.
  induction l as [|[k' v'] l IH]; simpl.
  - rewrite String.eqb_refl. reflexivity.
  - destruct (String.eqb k k') eqn:E; simpl.
    + rewrite String.eqb_refl. reflexivity.
    + rewrite E. exact IH.
Qed.

Lemma append_prefix_eqb (p x y : string) :
  String.eqb (p ++ x) (p ++ y) = String.eqb x y.
Proof.
  induction p as [|c p IH]; simpl; [reflexivity|].
  rewrite Ascii.eqb_refl. exact IH.
Qed.

Lemma fetch_info_commit (rn : string) (old : list (string * Commit))
      (b : string * Commit) :
  fi_commit (fetch_info rn old b) = snd b.
Proof.
  unfold fetch_info. destruct (assoc (fst b) old); [|reflexivity].
  destruct (commit_eqb _ _); [reflexivity|].
  destruct (is_ancestor _ _); reflexivity.
Qed.

Lemma fetch_info_name (rn : string) (old : list (string * Commit))
      (b : string * Commit) :
  fi_name (fetch_info rn old b) = ref_name rn (fst b).
Proof.
  unfold fetch_info. destruct (assoc (fst b) old); [|reflexivity].
  destruct (commit_eqb _ _); [reflexivity|].
  destruct (is_ancestor _ _); reflexivity.
Qed.

(** Looking "<remote>/<branch>" up in a fetch result finds the entry of the
    server's first branch of that name. *)
Lemma find_info_fetch (rn b : string) (old srv : list (string * Commit)) :
  find_info (ref_name rn b) (map (fetch_info rn old) srv) =
  option_map (fun c => fetch_info rn old (b, c)) (assoc b srv).
Proof.
  unfold find_info. induction srv as [|[n c] srv IH]; [reflexivity|].
  cbn [map find assoc]. rewrite fetch_info_name. cbn [fst]. unfold ref_name.
  rewrite append_prefix_eqb, append_prefix_eqb, String.eqb_sym.
  destruct (String.eqb b n) eqn:E; [|exact IH].
  apply String.eqb_eq in E. subst n. reflexivity.
Qed.

(** ** Running the monad *)

Create HintDb gitutils.
#[local] Hint Unfold bind ret raise try_except get_self get_env deref item emit
  set_gitRepo set_gitRemote set_fetchBranchInfo fetch pull head_checkout
  getCurrentBranch : gitutils.

Ltac run := repeat (progress (autounfold with gitutils; simpl)).
Ltac run_in H := repeat (progress (autounfold with gitutils in H; simpl in H)).

(** Case analysis on whatever a run still branches on, variables first. *)
Ltac split_cases :=
  repeat (first
            [ match goal with
              | |- context [match ?x with _ => _ end] => is_var x; destruct x
              end
            | match goal with
              | |- context [match ?x with _ => _ end] =>
                  lazymatch x with
                  | context [match _ with _ => _ end] => fail
                  | _ => destruct x eqn:?
                  end
              end ]; run).

(** ** Facts about [isUpToDate] *)

(** When the repository is loaded, the remote is configured and reachable and
    the branch exists on both sides, [isUpToDate] returns the ancestry test
    of the server's commit against the local one. *)
Lemma isUpToDate_returns (s : State) (repo : Repo) (remote : Remote)
      (branch : option string) (b : string) (ours theirs : Commit) :
  gitRepo (self s) = Some repo ->
  gitRemote (self s) = Some remote ->
  network_up (env s) = true ->
  branch_or_current branch repo = Some b ->
  assoc b (heads repo) = Some ours ->
  assoc b (server_heads (env s)) = Some theirs ->
  isUpToDate branch s =
  (Ok (is_ancestor theirs ours),
   fetched s repo remote
           (fetch_info (remote_name remote) (tracking repo) (b, theirs))).
Proof.
  destruct s as [[gr grm info] e tr]. simpl.
  intros -> -> Hnet Hb Hours Htheirs.
  unfold isUpToDate, fetched.
  destruct branch as [b0|]; simpl in Hb; [injection Hb as ->|]; run;
    rewrite ?Hb; run; rewrite Hours; run; rewrite Hnet; run;
    rewrite find_info_fetch, Htheirs; run;
    rewrite fetch_info_commit; reflexivity.
Qed.

(** Conversely, [isUpToDate] returns only in that situation. *)
Lemma isUpToDate_inv (s s1 : State) (branch : option string) (r : bool) :
  isUpToDate branch s = (Ok r, s1) ->
  exists repo remote b ours theirs,
    gitRepo (self s) = Some repo /\
    gitRemote (self s) = Some remote /\
    network_up (env s) = true /\
    branch_or_current branch repo = Some b /\
    assoc b (heads repo) = Some ours /\
    assoc b (server_heads (env s)) = Some theirs /\
    r = is_ancestor theirs ours /\
    s1 = fetched s repo remote
                 (fetch_info (remote_name remote) (tracking repo) (b, theirs)).
Proof.
  intros H.
  destruct s as [[[repo|] grm info] e tr].
  2:{ exfalso. destruct branch; discriminate H. }
  assert (exists b, branch_or_current branch repo = Some b) as [b Hb].
  { destruct branch as [b0|]; simpl; [eauto|].
    destruct (active_branch repo) eqn:E; [eauto|].
    exfalso. unfold isUpToDate in H. run_in H. rewrite E in H. discriminate H. }
  assert (Hstep : isUpToDate branch
                    (MkState (MkGitUtils (Some repo) grm info) e tr) =
                  isUpToDate (Some b)
                    (MkState (MkGitUtils (Some repo) grm info) e tr)).
  { destruct branch as [b0|]; simpl in Hb; [injection Hb as ->; reflexivity|].
    unfold isUpToDate. run. rewrite Hb. reflexivity. }
  rewrite Hstep in H.
  destruct (assoc b (heads repo)) as [ours|] eqn:Hours.
  2:{ exfalso. unfold isUpToDate in H. run_in H. rewrite Hours in H.
      discriminate H. }
  destruct grm as [remote|].
  2:{ exfalso. unfold isUpToDate in H. run_in H. rewrite Hours in H.
      discriminate H. }
  destruct (network_up e) eqn:Hnet.
  2:{ exfalso. unfold isUpToDate in H. run_in H. rewrite Hours in H. run_in H.
      rewrite Hnet in H. discriminate H. }
  destruct (assoc b (server_heads e)) as [theirs|] eqn:Htheirs.
  2:{ exfalso. unfold isUpToDate in H. run_in H. rewrite Hours in H. run_in H.
      rewrite Hnet in H. run_in H.
      rewrite find_info_fetch, Htheirs in H. discriminate H. }
  exists repo, remote, b, ours, theirs.
  rewrite (@isUpToDate_returns _ repo remote (Some b) b ours theirs) in H
    by (simpl; trivial).
  injection H as <- <-. repeat split; trivial.
Qed.

Lemma bind_ok {A B : Type} (m : M A) (k : A -> M B) (s s' : State) (a : A) :
  m s = (Ok a, s') -> bind m k s = k a s'.
Proof. intros H. unfold bind. rewrite H. reflexivity. Qed.

Lemma bind_raise {A B : Type} (m : M A) (k : A -> M B) (s s' : State) (e : Exn) :
  m s = (Raise e, s') -> bind m k s = (Raise e, s').
Proof. intros H. unfold bind. rewrite H. reflexivity. Qed.

Lemma safeCheck_loaded (s : State) (repo : Repo) :
  gitRepo (self s) = Some repo ->
  safeCheck s = (Ok (negb (is_dirty repo)), s).
Proof. intros H. unfold safeCheck. run. rewrite H. reflexivity. Qed.

Lemma safeCheck_unloaded (s : State) :
  gitRepo (self s) = None -> safeCheck s = (Ok false, s).
Proof. intros H. unfold safeCheck. run. rewrite H. reflexivity. Qed.

(** The up-to-date check leaves the branches, the checked-out branch and the
    working tree alone and never pulls. *)
Lemma fetched_local_view (s : State) (repo : Repo) (remote : Remote)
      (info : FetchInfo) :
  gitRepo (self s) = Some repo ->
  local_view (fetched s repo remote info) = local_view s /\
  pulls (fetched s repo remote info) = pulls s /\
  env (fetched s repo remote info) = env s.
Proof. intros H. unfold local_view, pulls. simpl. rewrite H. auto. Qed.

Lemma isUpToDate_keeps_local (s s1 : State) (branch : option string) (r : bool) :
  isUpToDate branch s = (Ok r, s1) ->
  pulls s1 = pulls s /\ local_view s1 = local_view s /\ env s1 = env s.
Proof.
  intros H. apply isUpToDate_inv in H.
  destruct H as (repo & remote & b & ours & theirs &
                 Hrepo & _ & _ & _ & _ & _ & _ & ->).
  destruct (fetched_local_view s remote
              (fetch_info (remote_name remote) (tracking repo) (b, theirs))
              Hrepo) as (Hview & Hpulls & Henv).
  auto.
Qed.

(** A check that succeeded succeeds again, with the same answer. *)
Lemma isUpToDate_stable (s s1 : State) (branch : option string) (r : bool) :
  isUpToDate branch s = (Ok r, s1) ->
  exists s2, isUpToDate branch s1 = (Ok r, s2).
Proof.
  intros H. apply isUpToDate_inv in H.
  destruct H as (repo & remote & b & ours & theirs &
                 Hrepo & Hremote & Hnet & Hb & Hours & Htheirs & -> & ->).
  eexists.
  apply (@isUpToDate_returns _
           (with_tracking repo (update_tracking (tracking repo)
                                                (server_heads (env s))))
           remote branch b ours theirs); simpl; trivial.
Qed.

Lemma pull_trace (r : Remote) (s : State) :
  trace (snd (pull r s)) = EvPull :: trace s.
Proof.
  destruct s as [[gr grm info] e tr]. run.
  split_cases; reflexivity.
Qed.

Lemma update_cases (s : State) :
  (fst (safeCheck s) = Ok false -> update s = (Ok false, s)) /\
  (forall s1, fst (safeCheck s) = Ok true ->
              isUpToDate None s = (Ok true, s1) ->
              update s = (Ok false, s1)) /\
  (forall s1, fst (safeCheck s) = Ok true ->
              isUpToDate None s = (Ok false, s1) ->
              exists remote, gitRemote (self s) = Some remote /\
                             update s = pulled remote s1).
Proof.
  assert (Hsafe : exists b, safeCheck s = (Ok b, s)).
  { destruct (gitRepo (self s)) as [repo|] eqn:E.
    - eexists. apply safeCheck_loaded. exact E.
    - eexists. apply safeCheck_unloaded. exact E. }
  destruct Hsafe as [safe Hsafe]. rewrite Hsafe. simpl.
  unfold update. rewrite (@bind_ok _ _ _ _ _ _ _ Hsafe).
  split; [|split].
  - intros E. injection E as ->. reflexivity.
  - intros s1 E H. injection E as ->. simpl.
    rewrite (@bind_ok _ _ _ _ _ _ _ H). reflexivity.
  - intros s1 E H. injection E as ->. simpl.
    rewrite (@bind_ok _ _ _ _ _ _ _ H). simpl.
    apply isUpToDate_inv in H.
    destruct H as (repo & remote & b & ours & theirs &
                   Hrepo & Hremote & Hnet & Hb & Hours & Htheirs & _ & ->).
    exists remote. split; [exact Hremote|].
    simpl in Hb. unfold bind at 1, get_self, fetched. simpl.
    match goal with
    | |- bind getCurrentBranch _ ?st = _ =>
        assert (Hget : getCurrentBranch st = (Ok b, st))
          by (unfold getCurrentBranch, bind, get_self, deref, ret; simpl;
              rewrite Hb; reflexivity);
        rewrite (@bind_ok _ _ _ _ _ _ _ Hget)
    end.
    unfold pulled, bind, ret.
    match goal with
    | |- context [pull remote ?st] =>
        destruct (pull remote st) as [[[]|e] s2]; reflexivity
    end.
Qed.

(** ** The up-to-date check *)

(** C1: for a loaded repository with a configured, reachable remote and a
    branch (the given one, or the current one when unset) present on both
    sides, [isUpToDate] returns, and returns true exactly when the commit
    fetched for the branch is an ancestor of the local branch's commit; when
    the remote commit is a strict descendant of the local one it returns
    false. *)
Theorem isUpToDate_iff_remote_is_ancestor
        (s : State) (repo : Repo) (remote : Remote) (branch : option string)
        (b : string) (ours theirs : Commit) :
  gitRepo (self s) = Some repo ->
  gitRemote (self s) = Some remote ->
  network_up (env s) = true ->
  branch_or_current branch repo = Some b ->
  assoc b (heads repo) = Some ours ->
  assoc b (server_heads (env s)) = Some theirs ->
  (exists r, fst (isUpToDate branch s) = Ok r /\
             (r = true <-> is_ancestor theirs ours = true)) /\
  (is_ancestor ours theirs = true -> ours <> theirs ->
   fst (isUpToDate branch s) = Ok false).
Proof.
  intros Hrepo Hremote Hnet Hb Hours Htheirs.
  rewrite (isUpToDate_returns s branch Hrepo Hremote Hnet Hb Hours Htheirs).
  simpl. split.
  - exists (is_ancestor theirs ours). split; [reflexivity | tauto].
  - intros Hdesc Hne.
    rewrite (strict_descendant_not_ancestor Hdesc Hne). reflexivity.
Qed.

Lemma isUpToDate_iff_remote_is_ancestor_witness :
  fst (isUpToDate None behind) = Ok false.
Proof.
  refine (proj2 (@isUpToDate_iff_remote_is_ancestor
                   behind (repo_at commit_A clean [origin]) origin None "main"
                   commit_A commit_B eq_refl eq_refl eq_refl eq_refl eq_refl
                   eq_refl) eq_refl _).
  discriminate.
Defined.

(** ** The safety check *)

(** C5 as amended: on a loaded repository [safeCheck] leaves the object and
    the repository as they were, answers false exactly when a path is staged
    or a tracked path is modified, and answers true exactly when there is no
    such change: untracked files are not looked at, whatever they are. *)
Theorem safeCheck_reports_pending_changes (s : State) (repo : Repo) :
  gitRepo (self s) = Some repo ->
  snd (safeCheck s) = s /\
  (fst (safeCheck s) = Ok false <->
   staged (status repo) <> [] \/ modified (status repo) <> []) /\
  (fst (safeCheck s) = Ok true <->
   staged (status repo) = [] /\ modified (status repo) = []).
Proof.
  intros Hrepo. rewrite (safeCheck_loaded s Hrepo). simpl.
  unfold is_dirty. split; [reflexivity|].
  destruct (staged (status repo)) as [|p ps];
    [destruct (modified (status repo)) as [|q qs]|]; simpl.
  - split; split.
    + discriminate.
    + intros [H | H]; contradiction H; reflexivity.
    + tauto.
    + reflexivity.
  - split; split.
    + intros _. right. discriminate.
    + reflexivity.
    + discriminate.
    + intros [_ H]. discriminate H.
  - split; split.
    + intros _. left. discriminate.
    + reflexivity.
    + discriminate.
    + intros [H _]. discriminate H.
Qed.

Lemma safeCheck_reports_pending_changes_witness :
  fst (safeCheck behind_dirty) = Ok false /\
  fst (safeCheck untracked_only) = Ok true /\
  snd (safeCheck behind_dirty) = behind_dirty.
Proof.
  split; [|split].
  - refine (proj2 (proj1 (proj2 (@safeCheck_reports_pending_changes
                                   behind_dirty (repo_at commit_A dirty [origin])
                                   eq_refl))) _).
    right. discriminate.
  - refine (proj2 (proj2 (proj2 (@safeCheck_reports_pending_changes
                                   untracked_only repo_release eq_refl))) _).
    split; reflexivity.
  - exact (proj1 (@safeCheck_reports_pending_changes
                    behind_dirty (repo_at commit_A dirty [origin]) eq_refl)).
Defined.

(** C5 fails as stated: with an untracked file that the branch [release]
    and the server's [main] would overwrite, [safeCheck] answers true; the
    checkout and the update it lets through are then refused by git. *)
Lemma safeCheck_passes_with_untracked_file :
  option_map (fun r => untracked (status r)) (gitRepo (self untracked_only)) =
  Some ["CHANGES.md"] /\
  safeCheck untracked_only = (Ok true, untracked_only) /\
  fst (checkout "release" untracked_only) = Raise GitCommandError /\
  fst (update untracked_only) = Raise GitCommandError.
Proof. repeat split. Qed.

(** Untracked files do not count as pending changes. *)
Lemma safeCheck_ignores_untracked (s : State) (repo : Repo) :
  gitRepo (self s) = Some repo ->
  staged (status repo) = [] -> modified (status repo) = [] ->
  fst (safeCheck s) = Ok true.
Proof.
  intros Hrepo Hs Hm. rewrite (safeCheck_loaded s Hrepo). unfold is_dirty.
  rewrite Hs, Hm. reflexivity.
Qed.

(** C10: without a repository handle [safeCheck] answers false at once, and
    so do [update] and [checkout], whose first action it is: no exception, no
    SDK call, nothing changed. *)
Theorem unloaded_guards_stop_at_safeCheck (s : State) :
  gitRepo (self s) = None ->
  safeCheck s = (Ok false, s) /\
  update s = (Ok false, s) /\
  (forall branch, checkout branch s = (Ok false, s)).
Proof.
  intros Hnone. pose proof (safeCheck_unloaded s Hnone) as Hsafe.
  split; [exact Hsafe|]. split.
  - unfold update. rewrite (@bind_ok _ _ _ _ _ _ _ Hsafe). reflexivity.
  - intros branch. unfold checkout.
    rewrite (@bind_ok _ _ _ _ _ _ _ Hsafe). reflexivity.
Qed.

Lemma unloaded_guards_stop_at_safeCheck_witness :
  safeCheck degraded = (Ok false, degraded) /\
  update degraded = (Ok false, degraded) /\
  (forall branch, checkout branch degraded = (Ok false, degraded)).
Proof.
  exact (@unloaded_guards_stop_at_safeCheck degraded eq_refl).
Defined.

(** ** Checkout *)

(** C6: on a loaded repository, [checkout] of the branch that is already
    checked out returns false and changes nothing, and on a dirty working
    tree [checkout] returns false (and changes nothing) whatever the branch. *)
Theorem checkout_refuses_current_and_dirty (s : State) (repo : Repo) :
  gitRepo (self s) = Some repo ->
  (forall branch, active_branch repo = Some branch ->
                  checkout branch s = (Ok false, s)) /\
  (is_dirty repo = true ->
   forall branch, checkout branch s = (Ok false, s)).
Proof.
  intros Hrepo. pose proof (safeCheck_loaded s Hrepo) as Hsafe.
  split.
  - intros branch Hcur. unfold checkout.
    rewrite (@bind_ok _ _ _ _ _ _ _ Hsafe).
    destruct (is_dirty repo); simpl; [reflexivity|].
    assert (Hget : getCurrentBranch s = (Ok branch, s)).
    { run. rewrite Hrepo. run. rewrite Hcur. reflexivity. }
    rewrite (@bind_ok _ _ _ _ _ _ _ Hget), String.eqb_refl. reflexivity.
  - intros Hdirty branch. unfold checkout.
    rewrite (@bind_ok _ _ _ _ _ _ _ Hsafe), Hdirty. reflexivity.
Qed.

Lemma checkout_refuses_current_and_dirty_witness :
  checkout "main" in_sync = (Ok false, in_sync) /\
  checkout "dev" behind_dirty = (Ok false, behind_dirty).
Proof.
  split.
  - exact (proj1 (@checkout_refuses_current_and_dirty
                    in_sync (repo_at commit_A clean [origin]) eq_refl)
                 "main" eq_refl).
  - exact (proj2 (@checkout_refuses_current_and_dirty
                    behind_dirty (repo_at commit_A dirty [origin]) eq_refl)
                 eq_refl "dev").
Defined.

(** ** Construction on a path that is not a repository *)

(** The remote is only ever set together with the repository. *)
Lemma init_remote_needs_repo (disk : option Repo) (s0 : State) :
  gitRemote (self (snd (init disk s0))) <> None ->
  gitRepo (self (snd (init disk s0))) <> None.
Proof.
  destruct s0 as [g e tr]. unfold init. run.
  destruct disk as [repo|]; run; [|intros H; contradiction H; reflexivity].
  intros _. destruct (active_branch repo); run; [|discriminate].
  destruct (List.length (remotes repo)); run; [discriminate|].
  destruct (find_remote "origin" (remotes repo)); run; discriminate.
Qed.

(** C2 as amended: when the path is not a valid repository the constructor
    returns normally and leaves every field empty; from then on [listBranch]
    returns the empty list and [safeCheck], [update] and [checkout] return
    false, none of them raising or changing anything, while
    [getCurrentBranch] fails with an exception. *)
Theorem init_invalid_repository_degrades (s0 : State) :
  let s := snd (init None s0) in
  fst (init None s0) = Ok tt /\
  self s = MkGitUtils None None None /\
  env s = env s0 /\ trace s = trace s0 /\
  listBranch s = (Ok [], s) /\
  safeCheck s = (Ok false, s) /\
  update s = (Ok false, s) /\
  (forall branch, checkout branch s = (Ok false, s)) /\
  getCurrentBranch s = (Raise AttributeError, s).
Proof.
  destruct s0 as [g e tr]. cbv zeta.
  change (init None (MkState g e tr))
    with (Ok tt, MkState (MkGitUtils None None None) e tr).
  simpl. repeat split.
Qed.

(** C2 fails as stated: in the degraded state [getCurrentBranch] and
    [isUpToDate] raise. *)
Lemma degraded_getCurrentBranch_raises :
  fst (init None (fresh (online [("main", commit_B)]))) = Ok tt /\
  fst (getCurrentBranch degraded) = Raise AttributeError /\
  fst (isUpToDate None degraded) = Raise AttributeError /\
  fst (isUpToDate (Some "main") degraded) = Raise AttributeError.
Proof. repeat split. Qed.

(** ** A repository without remotes *)

(** On a clean repository without remote the up-to-date check dereferences
    the missing remote, and [update] runs it before its own test of the
    remote. *)
Lemma update_without_remote_raises (s : State) (repo : Repo) (b : string)
      (ours : Commit) :
  gitRepo (self s) = Some repo ->
  gitRemote (self s) = None ->
  is_dirty repo = false ->
  active_branch repo = Some b ->
  assoc b (heads repo) = Some ours ->
  isUpToDate None s = (Raise AttributeError, s) /\
  update s = (Raise AttributeError, s).
Proof.
  destruct s as [[gr grm info] e tr]. simpl. intros -> -> Hclean Hb Hours.
  unfold update, safeCheck, isUpToDate. run.
  repeat (rewrite ?Hclean, ?Hb, ?Hours; run).
  split; reflexivity.
Qed.

(** C3 at a clean repository without remotes: [listBranch] returns the empty
    list, but [isUpToDate] and [update] raise [AttributeError] (without any
    network access) instead of returning false. *)
Theorem no_remote_update_raises :
  gitRemote (self no_remote) = None /\
  listBranch no_remote = (Ok [], no_remote) /\
  isUpToDate None no_remote = (Raise AttributeError, no_remote) /\
  update no_remote = (Raise AttributeError, no_remote) /\
  network_accesses (snd (update no_remote)) = 0.
Proof. repeat split. Qed.

(** ** Listing the branches of the remote *)

Lemma split_on_head (s : string) :
  nth_error (split_on slash s) 0 = Some (first_segment s).
Proof.
  unfold first_segment. destruct s as [|c rest]; simpl; [reflexivity|].
  destruct (Ascii.eqb c slash); [reflexivity|].
  destruct (split_on slash rest); reflexivity.
Qed.

(** [name.split('/')[1]] on "<remote>/<branch>" is the first segment of the
    branch name. *)
Lemma split_ref_name (rn n : string) :
  has_slash rn = false ->
  nth_error (split_on slash (ref_name rn n)) 1 = Some (first_segment n).
Proof.
  unfold ref_name. induction rn as [|c rn IH]; simpl; intros H.
  - apply split_on_head.
  - apply orb_false_iff in H. destruct H as [Hc Hrn]. rewrite Hc.
    specialize (IH Hrn). simpl in IH.
    destruct (split_on slash (rn ++ String "/" n)); [discriminate IH | exact IH].
Qed.

Lemma first_segment_plain (n : string) :
  has_slash n = false -> first_segment n = n.
Proof.
  unfold first_segment. induction n as [|c n IH]; simpl; intros H; [reflexivity|].
  apply orb_false_iff in H. destruct H as [Hc Hn]. rewrite Hc.
  specialize (IH Hn). destruct (split_on slash n); simpl in *; congruence.
Qed.

(** C7 at a server with the branches [main] and [feature/x]: the second name
    comes back as [feature], not as [feature/x]. *)
Theorem listBranch_truncates_nested_branch :
  map fst (server_heads (env slashed)) = ["main"; "feature/x"] /\
  fst (listBranch slashed) = Ok ["main"; "feature"].
Proof. split; reflexivity. Qed.

(** ** Update *)

Lemma pulled_pulls (remote : Remote) (s1 : State) :
  pulls (snd (pulled remote s1)) = S (pulls s1).
Proof.
  pose proof (pull_trace remote s1) as H. unfold pulled, pulls.
  destruct (pull remote s1) as [[u|e] s2]; simpl in *; rewrite H; reflexivity.
Qed.

(** C4 as amended: [update] returns false and changes nothing when the
    safety check fails; when the current branch is already up to date it
    returns false after the fetch of the up-to-date check only (no pull;
    branches, checked-out branch, working tree and environment as before);
    otherwise it pulls exactly once through the remote and returns true when
    the pull returns. *)
Theorem update_guards_then_pulls_once (s : State) :
  (fst (safeCheck s) = Ok false -> update s = (Ok false, s)) /\
  (forall s1, fst (safeCheck s) = Ok true ->
              isUpToDate None s = (Ok true, s1) ->
              update s = (Ok false, s1) /\
              pulls s1 = pulls s /\
              local_view s1 = local_view s /\
              env s1 = env s) /\
  (forall s1, fst (safeCheck s) = Ok true ->
              isUpToDate None s = (Ok false, s1) ->
              exists remote,
                gitRemote (self s) = Some remote /\
                update s = pulled remote s1 /\
                pulls (snd (update s)) = S (pulls s) /\
                (forall s2, pull remote s1 = (Ok tt, s2) ->
                            update s = (Ok true, s2))).
Proof.
  destruct (update_cases s) as (Hunsafe & Huptodate & Hbehind).
  split; [exact Hunsafe|]. split.
  - intros s1 Hsafe Hup. split; [exact (Huptodate s1 Hsafe Hup)|].
    exact (@isUpToDate_keeps_local _ _ _ _ Hup).
  - intros s1 Hsafe Hup.
    destruct (Hbehind s1 Hsafe Hup) as (remote & Hremote & Hupdate).
    exists remote. split; [exact Hremote|]. split; [exact Hupdate|]. split.
    + rewrite Hupdate, pulled_pulls.
      rewrite (proj1 (@isUpToDate_keeps_local _ _ _ _ Hup)). reflexivity.
    + intros s2 Hpull. rewrite Hupdate. unfold pulled. rewrite Hpull.
      reflexivity.
Qed.

Lemma update_guards_then_pulls_once_witness :
  update behind_dirty = (Ok false, behind_dirty) /\
  fst (update in_sync) = Ok false /\
  pulls (snd (update behind)) = 1.
Proof.
  split; [|split].
  - exact (proj1 (update_guards_then_pulls_once behind_dirty) eq_refl).
  - destruct (proj1 (proj2 (update_guards_then_pulls_once in_sync))
                    (snd (isUpToDate None in_sync)) eq_refl eq_refl)
      as (H & _).
    rewrite H. reflexivity.
  - destruct (proj2 (proj2 (update_guards_then_pulls_once behind))
                    (snd (isUpToDate None behind)) eq_refl eq_refl)
      as (remote & _ & _ & H & _).
    exact H.
Defined.

(** C4 fails as stated: when the branch is already up to date [update]
    returns false but has fetched, which is recorded in the object and in the
    remote-tracking refs of the repository. *)
Lemma update_up_to_date_has_fetched :
  fst (safeCheck in_sync) = Ok true /\
  fst (isUpToDate None in_sync) = Ok true /\
  fst (update in_sync) = Ok false /\
  snd (update in_sync) <> in_sync /\
  trace (snd (update in_sync)) = [EvFetch] /\
  trace in_sync = [] /\
  fetchBranchInfo (self in_sync) = None /\
  fetchBranchInfo (self (snd (update in_sync))) <> None /\
  option_map tracking (gitRepo (self in_sync)) = Some [] /\
  option_map tracking (gitRepo (self (snd (update in_sync)))) =
  Some [("main", commit_A)].
Proof.
  repeat split; discriminate.
Qed.

(** C8: when the current branch is up to date with the remote, any number of
    calls of [update] in a row all return false, and none of them pulls. *)
Theorem update_idempotent_when_up_to_date (n : nat) (s s1 : State) :
  isUpToDate None s = (Ok true, s1) ->
  fst (update_times n s) = repeat (Ok false) n /\
  pulls (snd (update_times n s)) = pulls s.
Proof.
  revert s s1. induction n as [|n IH]; intros s s1 Hup; [split; reflexivity|].
  destruct (update_cases s) as (Hunsafe & Huptodate & _).
  pose proof Hup as Hinv. apply isUpToDate_inv in Hinv.
  destruct Hinv as (repo & remote & b & ours & theirs &
                    Hrepo & _ & _ & _ & _ & _ & _ & _).
  pose proof (safeCheck_loaded s Hrepo) as Hsafe.
  cbn [update_times].
  destruct (is_dirty repo); simpl in Hsafe.
  - rewrite Hsafe in Hunsafe. rewrite (Hunsafe eq_refl).
    destruct (IH s s1 Hup) as (Hres & Hpulls).
    destruct (update_times n s) as [rs s']. simpl in *.
    rewrite Hres. auto.
  - rewrite Hsafe in Huptodate. rewrite (Huptodate s1 eq_refl Hup).
    destruct (@isUpToDate_keeps_local _ _ _ _ Hup) as (Hp1 & _).
    destruct (@isUpToDate_stable _ _ _ _ Hup) as [s2 Hup1].
    destruct (IH s1 s2 Hup1) as (Hres & Hpulls).
    destruct (update_times n s1) as [rs s']. simpl in *.
    rewrite Hres. split; [reflexivity | congruence].
Qed.

Lemma update_idempotent_when_up_to_date_witness :
  fst (update_times 2 in_sync) = [Ok false; Ok false] /\
  pulls (snd (update_times 2 in_sync)) = 0.
Proof.
  exact (@update_idempotent_when_up_to_date
           2 in_sync (snd (isUpToDate None in_sync)) eq_refl).
Defined.

(** When the upstream of the checked-out branch is the branch of the same
    name, after an [update] that pulled the next one finds the branch up to
    date: two calls in a row pull at most once. *)
Lemma update_then_up_to_date (s s1 : State) (repo : Repo) (b their_remote : string) :
  gitRepo (self s) = Some repo ->
  active_branch repo = Some b ->
  assoc b (upstream repo) = Some (their_remote, b) ->
  update s = (Ok true, s1) ->
  exists s2, update s1 = (Ok false, s2) /\ pulls s2 = pulls s1.
Proof.
  intros Hrepo Hb Hupstream Hupd.
  destruct (update_cases s) as (Hunsafe & Huptodate & Hbehind).
  pose proof (safeCheck_loaded s Hrepo) as Hsafe.
  destruct (is_dirty repo) eqn:Hdirty; simpl in Hsafe.
  { rewrite Hsafe in Hunsafe. rewrite (Hunsafe eq_refl) in Hupd. discriminate Hupd. }
  rewrite Hsafe in Huptodate, Hbehind.
  destruct (isUpToDate None s) as [[[|]|e] s'] eqn:Hup.
  { rewrite (Huptodate s' eq_refl eq_refl) in Hupd. discriminate Hupd. }
  2:{ unfold update in Hupd. rewrite (@bind_ok _ _ _ _ _ _ _ Hsafe) in Hupd.
      simpl in Hupd. rewrite (@bind_raise _ _ _ _ _ _ _ Hup) in Hupd.
      discriminate Hupd. }
  destruct (Hbehind s' eq_refl eq_refl) as (remote & Hremote & Hpulled).
  rewrite Hpulled in Hupd. clear Hunsafe Huptodate Hbehind Hpulled.
  apply isUpToDate_inv in Hup.
  destruct Hup as (repo' & remote' & b' & ours & theirs &
                   Hrepo' & Hremote' & Hnet & Hb' & Hours & Htheirs & Hanc & ->).
  rewrite Hrepo in Hrepo'. injection Hrepo' as <-.
  rewrite Hremote in Hremote'. injection Hremote' as <-.
  simpl in Hb'. rewrite Hb in Hb'. injection Hb' as <-. symmetry in Hanc.
  assert (Hs1 : exists ours',
             is_ancestor theirs ours' = true /\
             s1 = MkState
                    (MkGitUtils
                       (Some (with_heads
                                (with_tracking repo
                                   (update_tracking
                                      (update_tracking (tracking repo)
                                                       (server_heads (env s)))
                                      (server_heads (env s))))
                                (assoc_set b ours' (heads repo))))
                       (Some remote)
                       (Some (fetch_info (remote_name remote) (tracking repo)
                                         (b, theirs))))
                    (env s) (EvPull :: EvFetch :: trace s)).
  { unfold pulled, fetched in Hupd. run_in Hupd. rewrite Hnet in Hupd.
    run_in Hupd. rewrite Hb in Hupd. run_in Hupd. rewrite Hupstream in Hupd.
    destruct (String.eqb their_remote (remote_name remote)); run_in Hupd;
      [|discriminate Hupd].
    rewrite Htheirs, Hours, Hanc in Hupd.
    destruct (is_ancestor ours theirs) eqn:Hff; run_in Hupd.
    - match type of Hupd with
      | context [if ?c then _ else _] => destruct c
      end; run_in Hupd; [discriminate Hupd|].
      exists theirs. split; [apply is_ancestor_refl|].
      injection Hupd as <-. reflexivity.
    - destruct (reconcile repo); run_in Hupd; [discriminate Hupd|].
      match type of Hupd with
      | context [if ?c then _ else _] => destruct c
      end; run_in Hupd; [discriminate Hupd|].
      destruct (merge_conflicts (env s)); run_in Hupd; [|discriminate Hupd].
      exists (MkCommit (merge_tree (env s)) [ours; theirs]). split.
      + apply is_ancestor_parent. simpl. auto.
      + injection Hupd as <-. reflexivity. }
  destruct Hs1 as (ours' & Hanc' & ->).
  match goal with |- exists s2, update ?st = _ /\ _ => set (s1 := st) end.
  pose proof (@isUpToDate_returns s1 _ remote None b ours' theirs
                eq_refl eq_refl Hnet Hb (assoc_set_same b ours' (heads repo))
                Htheirs) as Hup1.
  rewrite Hanc' in Hup1. eexists.
  destruct (update_cases s1) as (_ & Huptodate & _).
  assert (Hsafe1 : fst (safeCheck s1) = Ok true).
  { unfold s1, safeCheck. run. unfold is_dirty in *. simpl. rewrite Hdirty.
    reflexivity. }
  split; [exact (Huptodate _ Hsafe1 Hup1)|].
  exact (proj1 (@isUpToDate_keeps_local _ _ _ _ Hup1)).
Qed.

(** The server one commit ahead: the check says so, [update] fast-forwards
    [main] to the server's commit, and a second [update] returns false. *)
Example update_fast_forwards :
  fst (isUpToDate None behind) = Ok false /\
  fst (update behind) = Ok true /\
  option_map (fun r => assoc "main" (heads r)) (gitRepo (self (snd (update behind))))
  = Some (Some commit_B) /\
  fst (update (snd (update behind))) = Ok false.
Proof. repeat split. Qed.

(** Diverged branches with merging pulls: [update] records a merge commit
    with both commits as parents and the next call returns false. *)
Example update_merges_diverged_branches :
  fst (update (diverged_merging [])) = Ok true /\
  option_map (fun r => assoc "main" (heads r))
             (gitRepo (self (snd (update (diverged_merging []))))) =
  Some (Some (MkCommit 4 [commit_C; commit_B])) /\
  fst (update (snd (update (diverged_merging [])))) = Ok false.
Proof. repeat split. Qed.

(** If the merge conflicts, [update] raises, the branch stays where it was
    and the working tree is left with the conflict, so that the next
    [update] stops at the safety check. *)
Example update_conflict_leaves_dirty_tree :
  fst (update (diverged_merging ["README.md"])) = Raise GitCommandError /\
  option_map (fun r => assoc "main" (heads r))
             (gitRepo (self (snd (update (diverged_merging ["README.md"]))))) =
  Some (Some commit_C) /\
  fst (safeCheck (snd (update (diverged_merging ["README.md"])))) = Ok false /\
  fst (update (snd (update (diverged_merging ["README.md"])))) = Ok false.
Proof. repeat split. Qed.

(** ** The stored fetch result *)

Lemma listBranch_loop_pure (infos : list FetchInfo) (result : list string) :
  exists r, forall s, listBranch_loop infos result s = (r, s).
Proof.
  revert result. induction infos as [|fi infos IH]; intros result.
  - exists (Ok result). reflexivity.
  - cbn [listBranch_loop]. unfold bind.
    destruct (nth_error (split_on slash (fi_name fi)) 1) as [name|]; simpl.
    + apply IH.
    + exists (Raise IndexError). reflexivity.
Qed.

Lemma getCurrentBranch_ignores_info (s : State) (f : option FetchInfo) :
  agree (getCurrentBranch (with_info f s)) (getCurrentBranch s).
Proof.
  destruct s as [[gr grm i] e tr]. unfold agree, with_info. run.
  split_cases; split; reflexivity.
Qed.

Lemma listBranch_ignores_info (s : State) (f : option FetchInfo) :
  agree (listBranch (with_info f s)) (listBranch s).
Proof.
  destruct s as [[gr grm i] e tr]. unfold agree, with_info, listBranch. run.
  destruct grm as [remote|]; run; [|split; reflexivity].
  destruct (network_up e); run; [|split; reflexivity].
  destruct gr as [repo|]; run; [|split; reflexivity].
  destruct (listBranch_loop_pure
              (map (fetch_info (remote_name remote) (tracking repo))
                   (server_heads e)) [])
    as [res Hres].
  rewrite !Hres. split; reflexivity.
Qed.

Lemma safeCheck_ignores_info (s : State) (f : option FetchInfo) :
  agree (safeCheck (with_info f s)) (safeCheck s).
Proof.
  destruct s as [[gr grm i] e tr]. unfold agree, with_info, safeCheck. run.
  split_cases; split; reflexivity.
Qed.

Lemma isUpToDate_ignores_info (s : State) (f : option FetchInfo)
      (branch : option string) :
  agree (isUpToDate branch (with_info f s)) (isUpToDate branch s).
Proof.
  destruct s as [[gr grm i] e tr]. unfold agree, with_info, isUpToDate. run.
  split_cases; split; reflexivity.
Qed.

Lemma update_ignores_info (s : State) (f : option FetchInfo) :
  agree (update (with_info f s)) (update s).
Proof.
  destruct s as [[gr grm i] e tr].
  unfold agree, with_info, update, safeCheck, isUpToDate. run.
  split_cases; split; reflexivity.
Qed.

Lemma checkout_ignores_info (s : State) (f : option FetchInfo) (branch : string) :
  agree (checkout branch (with_info f s)) (checkout branch s).
Proof.
  destruct s as [[gr grm i] e tr].
  unfold agree, with_info, checkout, safeCheck. run.
  split_cases; split; reflexivity.
Qed.

(** C9 as amended: the fetch result is kept in [__fetchBranchInfo] between
    calls, but no method reads what an earlier call left there: whatever the
    field holds, every method gives the same result and the same final state
    up to that field, and an up-to-date check that returns has overwritten it
    with the entry it has just fetched. *)
Theorem stored_fetch_info_is_never_read (s : State) (f : option FetchInfo) :
  agree (getCurrentBranch (with_info f s)) (getCurrentBranch s) /\
  agree (listBranch (with_info f s)) (listBranch s) /\
  agree (safeCheck (with_info f s)) (safeCheck s) /\
  (forall branch,
      agree (isUpToDate branch (with_info f s)) (isUpToDate branch s)) /\
  agree (update (with_info f s)) (update s) /\
  (forall branch, agree (checkout branch (with_info f s)) (checkout branch s)) /\
  (forall branch r s1,
      isUpToDate branch (with_info f s) = (Ok r, s1) ->
      exists repo remote b theirs,
        gitRepo (self s) = Some repo /\
        gitRemote (self s) = Some remote /\
        branch_or_current branch repo = Some b /\
        assoc b (server_heads (env s)) = Some theirs /\
        fetchBranchInfo (self s1) =
        Some (fetch_info (remote_name remote) (tracking repo) (b, theirs))).
Proof.
  split; [apply getCurrentBranch_ignores_info|].
  split; [apply listBranch_ignores_info|].
  split; [apply safeCheck_ignores_info|].
  split; [intros branch; apply isUpToDate_ignores_info|].
  split; [apply update_ignores_info|].
  split; [intros branch; apply checkout_ignores_info|].
  intros branch r s1 H. apply isUpToDate_inv in H.
  destruct H as (repo & remote & b & ours & theirs &
                 Hrepo & Hremote & _ & Hb & _ & Htheirs & _ & ->).
  exists repo, remote, b, theirs. simpl in *. auto.
Qed.

Lemma stored_fetch_info_is_never_read_witness :
  fst (isUpToDate None (with_info (Some stale_info) in_sync)) =
  fst (isUpToDate None in_sync) /\
  fetchBranchInfo
    (self (snd (isUpToDate None (with_info (Some stale_info) in_sync)))) =
  Some (fetch_info "origin" [] ("main", commit_A)).
Proof.
  pose proof (stored_fetch_info_is_never_read in_sync (Some stale_info))
    as (_ & _ & _ & Hcheck & _ & _ & Hfresh).
  split.
  - exact (proj1 (Hcheck None)).
  - destruct (Hfresh None true
                (snd (isUpToDate None (with_info (Some stale_info) in_sync)))
                eq_refl)
      as (repo & remote & b & theirs & Hrepo & Hremote & Hb & Htheirs & Hinfo).
    injection Hrepo as <-. injection Hremote as <-.
    injection Hb as <-. injection Htheirs as <-.
    exact Hinfo.
Defined.

(** C9 fails as stated: the entry fetched by an up-to-date check, with the
    commit it refers to, stays in the object through the calls that follow. *)
Lemma fetch_info_outlives_the_check :
  fetchBranchInfo (self in_sync) = None /\
  fetchBranchInfo (self (snd (isUpToDate None in_sync))) =
  Some (MkFetchInfo "origin/main" commit_A FetchFlag.NEW_HEAD None "main") /\
  fetchBranchInfo (self (snd (safeCheck (snd (isUpToDate None in_sync))))) =
  Some (MkFetchInfo "origin/main" commit_A FetchFlag.NEW_HEAD None "main") /\
  fetchBranchInfo
    (self (snd (checkout "dev" (snd (isUpToDate None in_sync))))) =
  Some (MkFetchInfo "origin/main" commit_A FetchFlag.NEW_HEAD None "main") /\
  fetchBranchInfo (self (snd (listBranch (snd (isUpToDate None in_sync))))) =
  Some (MkFetchInfo "origin/main" commit_A FetchFlag.NEW_HEAD None "main").
Proof. repeat split. Qed.

(** ** Further properties of the constructor *)

(** X1: on a valid repository with a checked-out branch the constructor
    returns normally, stores the repository, makes no SDK call that leaves the
    process, and sets the remote to the first remote named origin when there
    is one and to nothing when the repository has no remote at all. *)
Theorem init_loads_repository_and_origin
        (repo : Repo) (s0 : State) (b : string) :
  active_branch repo = Some b ->
  (remotes repo = [] ->
   init (Some repo) s0 =
   (Ok tt, MkState (MkGitUtils (Some repo) None None) (env s0) (trace s0))) /\
  (forall r, find_remote "origin" (remotes repo) = Some r ->
             remote_name r = "origin" /\
             init (Some repo) s0 =
             (Ok tt,
              MkState (MkGitUtils (Some repo) (Some r) None) (env s0) (trace s0))).
Proof.
  intros Hb. destruct s0 as [g e tr]. split.
  - intros Hnone. unfold init. run. rewrite Hb. run. rewrite Hnone. reflexivity.
  - intros r Hfind. split.
    + unfold find_remote in Hfind. apply find_some in Hfind.
      apply String.eqb_eq. exact (proj2 Hfind).
    + assert (Hlen : exists n, List.length (remotes repo) = S n).
      { destruct (remotes repo); [discriminate Hfind | simpl; eauto]. }
      destruct Hlen as [n Hlen].
      unfold init. run. rewrite Hb. run. rewrite Hlen. run.
      rewrite Hfind. reflexivity.
Qed.

Lemma init_loads_repository_and_origin_witness :
  init (Some (repo_at commit_A clean [])) (fresh (online [])) =
  (Ok tt,
   MkState (MkGitUtils (Some (repo_at commit_A clean [])) None None)
           (online []) []) /\
  init (Some (repo_at commit_A clean [MkRemote "upstream"; origin]))
       (fresh (online [])) =
  (Ok tt,
   MkState (MkGitUtils
              (Some (repo_at commit_A clean [MkRemote "upstream"; origin]))
              (Some origin) None)
           (online []) []).
Proof.
  split.
  - exact (proj1 (@init_loads_repository_and_origin
                    (repo_at commit_A clean []) (fresh (online [])) "main"
                    eq_refl) eq_refl).
  - exact (proj2 (proj2 (@init_loads_repository_and_origin
                    (repo_at commit_A clean [MkRemote "upstream"; origin])
                    (fresh (online [])) "main" eq_refl) origin eq_refl)).
Defined.

(** X2: the constructor only handles [InvalidGitRepositoryError]: on a valid
    repository with a detached HEAD the [TypeError] of the current-branch
    lookup leaves the constructor, after the repository has been stored and
    before the remote is looked at. *)
Theorem init_detached_head_raises (repo : Repo) (s0 : State) :
  active_branch repo = None ->
  init (Some repo) s0 =
  (Raise TypeError,
   MkState (MkGitUtils (Some repo) None None) (env s0) (trace s0)).
Proof.
  intros Hb. destruct s0 as [g e tr]. unfold init. run. rewrite Hb. reflexivity.
Qed.

Lemma init_detached_head_raises_witness :
  init (Some repo_detached) (fresh (online [])) =
  (Raise TypeError,
   MkState (MkGitUtils (Some repo_detached) None None) (online []) []).
Proof.
  exact (@init_detached_head_raises repo_detached (fresh (online [])) eq_refl).
Defined.

(** X3: when the repository has remotes but none is named origin, the
    [IndexError] of [remotes['origin']] leaves the constructor; the
    repository is stored and the remote is not. *)
Theorem init_without_origin_raises (repo : Repo) (s0 : State) (b : string) :
  active_branch repo = Some b ->
  remotes repo <> [] ->
  find_remote "origin" (remotes repo) = None ->
  init (Some repo) s0 =
  (Raise IndexError,
   MkState (MkGitUtils (Some repo) None None) (env s0) (trace s0)).
Proof.
  intros Hb Hsome Hfind. destruct s0 as [g e tr].
  assert (Hlen : exists n, List.length (remotes repo) = S n).
  { destruct (remotes repo); [contradiction Hsome; reflexivity | simpl; eauto]. }
  destruct Hlen as [n Hlen].
  unfold init. run. rewrite Hb. run. rewrite Hlen. run.
  rewrite Hfind. reflexivity.
Qed.

Lemma init_without_origin_raises_witness :
  init (Some repo_upstream) (fresh (online [])) =
  (Raise IndexError,
   MkState (MkGitUtils (Some repo_upstream) None None) (online []) []).
Proof.
  refine (@init_without_origin_raises repo_upstream (fresh (online [])) "main"
            eq_refl _ eq_refl).
  discriminate.
Defined.

(** ** What the methods keep *)

(** X4: no method changes whether a repository is held, nor which remote is
    held: both are fixed by the constructor. *)
Theorem methods_keep_handles (s : State) :
  (loaded (snd (getCurrentBranch s)) = loaded s /\
   gitRemote (self (snd (getCurrentBranch s))) = gitRemote (self s)) /\
  (loaded (snd (listBranch s)) = loaded s /\
   gitRemote (self (snd (listBranch s))) = gitRemote (self s)) /\
  (loaded (snd (safeCheck s)) = loaded s /\
   gitRemote (self (snd (safeCheck s))) = gitRemote (self s)) /\
  (forall branch,
      loaded (snd (isUpToDate branch s)) = loaded s /\
      gitRemote (self (snd (isUpToDate branch s))) = gitRemote (self s)) /\
  (loaded (snd (update s)) = loaded s /\
   gitRemote (self (snd (update s))) = gitRemote (self s)) /\
  (forall branch,
      loaded (snd (checkout branch s)) = loaded s /\
      gitRemote (self (snd (checkout branch s))) = gitRemote (self s)).
Proof.
  destruct s as [[gr grm i] e tr]. unfold loaded.
  split; [|split; [|split; [|split; [|split]]]].
  - run. split_cases; split; reflexivity.
  - unfold listBranch. run.
    destruct grm as [remote|]; run; [|split; reflexivity].
    destruct (network_up e); run; [|split; reflexivity].
    destruct gr as [repo|]; run; [|split; reflexivity].
    destruct (listBranch_loop_pure
                (map (fetch_info (remote_name remote) (tracking repo))
                     (server_heads e)) [])
      as [res Hres].
    rewrite Hres. split; reflexivity.
  - unfold safeCheck. run. split_cases; split; reflexivity.
  - intros branch. unfold isUpToDate. run. split_cases; split; reflexivity.
  - unfold update, safeCheck, isUpToDate. run. split_cases; split; reflexivity.
  - intros branch. unfold checkout, safeCheck. run.
    split_cases; split; reflexivity.
Qed.

(** ** Further properties of [checkout] *)



(** X6: on a clean working tree, [checkout] of a name that is no local branch
    raises [IndexError], and [checkout] on a detached HEAD raises
    [TypeError] whatever the name; neither changes anything. *)
Theorem checkout_failures_change_nothing (s : State) (repo : Repo) :
  gitRepo (self s) = Some repo ->
  is_dirty repo = false ->
  (forall current branch,
      active_branch repo = Some current ->
      branch <> current ->
      assoc branch (heads repo) = None ->
      checkout branch s = (Raise IndexError, s)) /\
  (active_branch repo = None ->
   forall branch, checkout branch s = (Raise TypeError, s)).
Proof.
  destruct s as [[gr grm info] e tr]. simpl. intros -> Hclean. split.
  - intros current branch Hcur Hne Hhead. apply String.eqb_neq in Hne.
    unfold checkout, safeCheck. run. rewrite Hclean. run. rewrite Hcur. run.
    rewrite Hne. run. rewrite Hhead. reflexivity.
  - intros Hcur branch. unfold checkout, safeCheck. run. rewrite Hclean. run.
    rewrite Hcur. reflexivity.
Qed.

Lemma checkout_failures_change_nothing_witness :
  checkout "nope" in_sync = (Raise IndexError, in_sync) /\
  checkout "main" (snd (init (Some repo_detached) (fresh (online [])))) =
  (Raise TypeError, snd (init (Some repo_detached) (fresh (online [])))).
Proof.
  assert (H : "nope" <> "main") by discriminate.
  split.
  - exact (proj1 (@checkout_failures_change_nothing
                    in_sync (repo_at commit_A clean [origin]) eq_refl eq_refl)
                 "main" "nope" eq_refl H eq_refl).
  - exact (proj2 (@checkout_failures_change_nothing
                    (snd (init (Some repo_detached) (fresh (online []))))
                    repo_detached eq_refl eq_refl)
                 eq_refl "main").
Defined.


(** ** Further properties of [listBranch] *)

Lemma split_on_nonempty (s : string) : split_on slash s <> [].
Proof.
  destruct s as [|c rest]; simpl; [discriminate|].
  destruct (Ascii.eqb c slash); [discriminate|].
  destruct (split_on slash rest); discriminate.
Qed.

Lemma split_on_plain (s : string) :
  has_slash s = false -> split_on slash s = [s].
Proof.
  induction s as [|c s IH]; simpl; intros H; [reflexivity|].
  apply orb_false_iff in H. destruct H as [Hc Hs].
  rewrite Hc, (IH Hs). reflexivity.
Qed.

Lemma split_on_second (s : string) :
  has_slash s = true -> exists piece, nth_error (split_on slash s) 1 = Some piece.
Proof.
  induction s as [|c s IH]; simpl; intros H; [discriminate H|].
  destruct (Ascii.eqb c slash); simpl in H.
  - pose proof (split_on_nonempty s) as Hne.
    destruct (split_on slash s) as [|p ps]; [contradiction Hne; reflexivity|].
    exists p. reflexivity.
  - destruct (IH H) as [piece Hpiece].
    destruct (split_on slash s) as [|p ps]; [discriminate Hpiece|].
    exists piece. exact Hpiece.
Qed.

(** X8: [str.split] is undone by [str.join]: joining the pieces of a name
    with the separator gives the name back. *)
Theorem split_on_join (s : string) :
  String.concat "/" (split_on slash s) = s.
Proof.
  induction s as [|c s IH]; [reflexivity|].
  cbn [split_on]. pose proof (split_on_nonempty s) as Hne.
  destruct (split_on slash s) as [|p ps]; [contradiction Hne; reflexivity|].
  destruct (Ascii.eqb c slash) eqn:Hc.
  - apply Ascii.eqb_eq in Hc. subst c.
    change (String.concat "/" ("" :: p :: ps))
      with ("" ++ "/" ++ String.concat "/" (p :: ps))%string.
    rewrite IH. reflexivity.
  - destruct ps as [|q qs].
    + simpl in *. rewrite IH. reflexivity.
    + change (String.concat "/" (String c p :: q :: qs))
        with (String c (String.concat "/" (p :: q :: qs))).
      rewrite IH. reflexivity.
Qed.

(** X9: the loop of [listBranch] returns exactly when every fetched name
    contains a separator, with one element per fetched entry appended to the
    result; a name without separator (index 1 of its split is out of range)
    makes it raise [IndexError].  The loop itself changes nothing. *)
Theorem listBranch_loop_returns_iff_all_qualified
        (infos : list FetchInfo) (result : list string) (s : State) :
  (Forall (fun fi => has_slash (fi_name fi) = true) infos ->
   exists names,
     listBranch_loop infos result s = (Ok (result ++ names), s) /\
     List.length names = List.length infos) /\
  (Exists (fun fi => has_slash (fi_name fi) = false) infos ->
   listBranch_loop infos result s = (Raise IndexError, s)).
Proof.
  revert result. induction infos as [|fi infos IH]; intros result.
  - split.
    + intros _. exists []. rewrite app_nil_r. split; reflexivity.
    + intros H. inversion H.
  - cbn [listBranch_loop]. unfold bind.
    destruct (has_slash (fi_name fi)) eqn:Hfi.
    + destruct (split_on_second _ Hfi) as [piece Hpiece]. rewrite Hpiece.
      cbn [item ret]. destruct (IH (result ++ [piece])) as [IHok IHraise].
      split.
      * intros Hall. inversion Hall as [|? ? _ Hrest]; subst.
        destruct (IHok Hrest) as (names & Hrun & Hlen).
        exists (piece :: names). rewrite Hrun, <- app_assoc. simpl.
        rewrite Hlen. split; reflexivity.
      * intros Hex. inversion Hex as [? ? Hhere | ? ? Hlater]; subst.
        -- rewrite Hfi in Hhere. discriminate Hhere.
        -- exact (IHraise Hlater).
    + rewrite (split_on_plain _ Hfi). cbn [nth_error item raise]. split.
      * intros Hall. inversion Hall as [|? ? Hhere _]; subst.
        rewrite Hfi in Hhere. discriminate Hhere.
      * intros _. reflexivity.
Qed.

Lemma listBranch_loop_returns_iff_all_qualified_witness :
  (exists names,
      listBranch_loop [MkFetchInfo "origin/main" commit_A 0 None "main"]
                      [] in_sync = (Ok ([] ++ names), in_sync) /\
      List.length names = 1) /\
  listBranch_loop [MkFetchInfo "v1.0" commit_A FetchFlag.NEW_TAG None "v1.0"]
                  [] in_sync = (Raise IndexError, in_sync).
Proof.
  split.
  - refine (proj1 (listBranch_loop_returns_iff_all_qualified
                     [MkFetchInfo "origin/main" commit_A 0 None "main"]
                     [] in_sync) _).
    constructor; [reflexivity | constructor].
  - refine (proj2 (listBranch_loop_returns_iff_all_qualified
                     [MkFetchInfo "v1.0" commit_A FetchFlag.NEW_TAG None "v1.0"]
                     [] in_sync) _).
    constructor. reflexivity.
Defined.

Lemma listBranch_loop_prefixed (rn : string) (infos : list FetchInfo)
      (names result : list string) (s : State) :
  has_slash rn = false ->
  map fi_name infos = map (ref_name rn) names ->
  listBranch_loop infos result s =
  (Ok (result ++ map first_segment names), s).
Proof.
  intros Hrn. revert names result.
  induction infos as [|fi infos IH]; intros [|n names] result Hnames;
    try discriminate Hnames.
  - simpl. rewrite app_nil_r. reflexivity.
  - cbn [map] in Hnames. injection Hnames as Hfi Hrest.
    cbn [listBranch_loop map]. rewrite Hfi, (@split_ref_name rn _ Hrn).
    unfold bind at 1. cbn [item ret].
    rewrite (IH names _ Hrest), <- app_assoc. reflexivity.
Qed.

(** X10: whatever the fetch returns, if its entries are named
    "<remote>/<branch>" for a list of branch names, [listBranch] returns, in
    the order of the entries, the first segment of each branch name, hence
    the branch names themselves when none contains a separator; it ends in
    the state the fetch has left. *)
Theorem listBranch_strips_remote_prefix
        (s s1 : State) (remote : Remote) (infos : list FetchInfo)
        (names : list string) :
  gitRemote (self s) = Some remote ->
  fetch remote s = (Ok infos, s1) ->
  has_slash (remote_name remote) = false ->
  map fi_name infos = map (ref_name (remote_name remote)) names ->
  listBranch s = (Ok (map first_segment names), s1) /\
  (Forall (fun n => has_slash n = false) names ->
   listBranch s = (Ok names, s1)).
Proof.
  intros Hremote Hfetch Hrn Hnames.
  assert (Hrun : listBranch s = (Ok (map first_segment names), s1)).
  { unfold listBranch. unfold bind at 1, get_self. cbn [fst snd].
    rewrite Hremote. rewrite (@bind_ok _ _ _ _ _ _ _ Hfetch).
    rewrite (@listBranch_loop_prefixed _ _ _ _ _ Hrn Hnames). reflexivity. }
  split; [exact Hrun|].
  intros Hplain. rewrite Hrun. do 2 f_equal.
  rewrite Forall_forall in Hplain.
  rewrite <- (map_id names) at 2.
  apply map_ext_in. intros n Hin. apply first_segment_plain, Hplain, Hin.
Qed.

Lemma listBranch_strips_remote_prefix_witness :
  listBranch behind = (Ok ["main"], snd (fetch origin behind)).
Proof.
  refine (proj2 (@listBranch_strips_remote_prefix
                   behind (snd (fetch origin behind)) origin
                   [fetch_info "origin" [] ("main", commit_B)] ["main"]
                   eq_refl eq_refl eq_refl eq_refl) _).
  constructor; [reflexivity | constructor].
Defined.

(** ** Further properties of [isUpToDate] *)

(** X11: [isUpToDate] looks at the local side first: without a repository
    ([AttributeError]), on a detached HEAD with no branch given
    ([TypeError]), for a branch that does not exist locally ([IndexError]) or
    without a remote ([AttributeError]) it raises before any fetch, and
    nothing has changed. *)
Theorem isUpToDate_local_failures_change_nothing
        (s : State) (branch : option string) :
  (gitRepo (self s) = None ->
   isUpToDate branch s = (Raise AttributeError, s)) /\
  (forall repo,
      gitRepo (self s) = Some repo ->
      branch_or_current branch repo = None ->
      isUpToDate branch s = (Raise TypeError, s)) /\
  (forall repo b,
      gitRepo (self s) = Some repo ->
      branch_or_current branch repo = Some b ->
      assoc b (heads repo) = None ->
      isUpToDate branch s = (Raise IndexError, s)) /\
  (forall repo b ours,
      gitRepo (self s) = Some repo ->
      branch_or_current branch repo = Some b ->
      assoc b (heads repo) = Some ours ->
      gitRemote (self s) = None ->
      isUpToDate branch s = (Raise AttributeError, s)).
Proof.
  destruct s as [[gr grm info] e tr]. simpl.
  split; [|split; [|split]].
  - intros ->. destruct branch; reflexivity.
  - intros repo -> Hb. destruct branch as [b|]; simpl in Hb; [discriminate Hb|].
    unfold isUpToDate. run. rewrite Hb. reflexivity.
  - intros repo b -> Hb Hhead. unfold isUpToDate.
    destruct branch as [b0|]; simpl in Hb; [injection Hb as ->|];
      run; rewrite ?Hb; run; rewrite Hhead; reflexivity.
  - intros repo b ours -> Hb Hhead ->. unfold isUpToDate.
    destruct branch as [b0|]; simpl in Hb; [injection Hb as ->|];
      run; rewrite ?Hb; run; rewrite Hhead; reflexivity.
Qed.

Lemma isUpToDate_local_failures_change_nothing_witness :
  isUpToDate None degraded = (Raise AttributeError, degraded) /\
  isUpToDate None (snd (init (Some repo_detached) (fresh (online [])))) =
  (Raise TypeError, snd (init (Some repo_detached) (fresh (online [])))) /\
  isUpToDate (Some "nope") behind = (Raise IndexError, behind) /\
  isUpToDate (Some "dev") no_remote = (Raise AttributeError, no_remote).
Proof.
  split; [|split; [|split]].
  - exact (proj1 (isUpToDate_local_failures_change_nothing degraded None)
                 eq_refl).
  - exact (proj1 (proj2 (isUpToDate_local_failures_change_nothing
                           (snd (init (Some repo_detached) (fresh (online []))))
                           None))
                 repo_detached eq_refl eq_refl).
  - exact (proj1 (proj2 (proj2 (isUpToDate_local_failures_change_nothing
                                  behind (Some "nope"))))
                 (repo_at commit_A clean [origin]) "nope"
                 eq_refl eq_refl eq_refl).
  - exact (proj2 (proj2 (proj2 (isUpToDate_local_failures_change_nothing
                                  no_remote (Some "dev"))))
                 (repo_at commit_A clean []) "dev" commit_A
                 eq_refl eq_refl eq_refl eq_refl).
Defined.

(** X12: once the local side is in order, a failure of the fetch
    ([GitCommandError]) or a branch the server does not have ([IndexError])
    makes [isUpToDate] raise after its one fetch; in both cases the stored
    fetch result is the one of the previous check, and branches, checked-out
    branch and working tree are as before. *)
Theorem isUpToDate_remote_failures_keep_stored_info
        (s : State) (repo : Repo) (remote : Remote) (branch : option string)
        (b : string) (ours : Commit) :
  gitRepo (self s) = Some repo ->
  gitRemote (self s) = Some remote ->
  branch_or_current branch repo = Some b ->
  assoc b (heads repo) = Some ours ->
  (network_up (env s) = false ->
   isUpToDate branch s = (Raise GitCommandError, attempted EvFetch s)) /\
  (network_up (env s) = true ->
   assoc b (server_heads (env s)) = None ->
   isUpToDate branch s = (Raise IndexError, fetched_only s repo) /\
   fetchBranchInfo (self (fetched_only s repo)) = fetchBranchInfo (self s) /\
   local_view (fetched_only s repo) = local_view s).
Proof.
  destruct s as [[gr grm info] e tr]. simpl. intros -> -> Hb Hhead.
  split.
  - intros Hnet. unfold isUpToDate, attempted.
    destruct branch as [b0|]; simpl in Hb; [injection Hb as ->|];
      run; rewrite ?Hb; run; rewrite Hhead; run; rewrite Hnet; reflexivity.
  - intros Hnet Hsrv. split; [|split; reflexivity].
    unfold isUpToDate, fetched_only.
    destruct branch as [b0|]; simpl in Hb; [injection Hb as ->|];
      run; rewrite ?Hb; run; rewrite Hhead; run; rewrite Hnet; run;
      rewrite find_info_fetch, Hsrv; reflexivity.
Qed.

Lemma isUpToDate_remote_failures_keep_stored_info_witness :
  isUpToDate None offline = (Raise GitCommandError, attempted EvFetch offline) /\
  isUpToDate None (with_info (Some stale_info) server_without_main) =
  (Raise IndexError,
   fetched_only (with_info (Some stale_info) server_without_main)
                (repo_at commit_A clean [origin])) /\
  fetchBranchInfo
    (self (snd (isUpToDate None (with_info (Some stale_info) server_without_main))))
  = Some stale_info.
Proof.
  split; [|split].
  - exact (proj1 (@isUpToDate_remote_failures_keep_stored_info
                    offline (repo_at commit_A clean [origin]) origin None
                    "main" commit_A eq_refl eq_refl eq_refl eq_refl)
                 eq_refl).
  - exact (proj1 (proj2 (@isUpToDate_remote_failures_keep_stored_info
                    (with_info (Some stale_info) server_without_main)
                    (repo_at commit_A clean [origin]) origin None
                    "main" commit_A eq_refl eq_refl eq_refl eq_refl)
                 eq_refl eq_refl)).
  - destruct (proj2 (@isUpToDate_remote_failures_keep_stored_info
                    (with_info (Some stale_info) server_without_main)
                    (repo_at commit_A clean [origin]) origin None
                    "main" commit_A eq_refl eq_refl eq_refl eq_refl)
                 eq_refl eq_refl) as (Hrun & Hinfo & _).
    rewrite Hrun. exact Hinfo.
Defined.

(** ** Further properties of [update] *)

(** X13: [update] handles no exception: on a clean working tree whatever
    the up-to-date check raises leaves [update] with the same state, and when
    the check answers false whatever the pull raises leaves [update] too, so
    that [update] does not return true. *)
Theorem update_propagates_exceptions (s : State) (repo : Repo) :
  gitRepo (self s) = Some repo ->
  is_dirty repo = false ->
  (forall e s1, isUpToDate None s = (Raise e, s1) ->
                update s = (Raise e, s1)) /\
  (forall remote e s1 s2,
      gitRemote (self s) = Some remote ->
      isUpToDate None s = (Ok false, s1) ->
      pull remote s1 = (Raise e, s2) ->
      update s = (Raise e, s2)).
Proof.
  intros Hrepo Hclean.
  pose proof (safeCheck_loaded s Hrepo) as Hsafe. rewrite Hclean in Hsafe.
  simpl in Hsafe. split.
  - intros e s1 Hup. unfold update. rewrite (@bind_ok _ _ _ _ _ _ _ Hsafe).
    simpl. rewrite (@bind_raise _ _ _ _ _ _ _ Hup). reflexivity.
  - intros remote e s1 s2 Hremote Hup Hpull.
    destruct (update_cases s) as (_ & _ & Hbehind).
    rewrite Hsafe in Hbehind.
    destruct (Hbehind s1 eq_refl Hup) as (remote' & Hremote' & Hupd).
    rewrite Hremote in Hremote'. injection Hremote' as <-.
    rewrite Hupd. unfold pulled. rewrite Hpull. reflexivity.
Qed.

Lemma update_propagates_exceptions_witness :
  fst (update offline) = Raise GitCommandError /\
  fst (update conflicting) = Raise GitCommandError.
Proof.
  split.
  - rewrite (proj1 (@update_propagates_exceptions
                      offline (repo_at commit_A clean [origin]) eq_refl eq_refl)
                   GitCommandError (attempted EvFetch offline) eq_refl).
    reflexivity.
  - rewrite (proj2 (@update_propagates_exceptions
                      conflicting (repo_at commit_C clean [origin])
                      eq_refl eq_refl)
                   origin GitCommandError
                   (snd (isUpToDate None conflicting))
                   (snd (pull origin (snd (isUpToDate None conflicting))))
                   eq_refl eq_refl eq_refl).
    reflexivity.
Defined.

(** X14: when the upstream of the checked-out branch is the branch of the
    same name, [update] never returns true twice in a row: when it returns
    true it has fetched once and pulled once, and the next call finds the
    branch up to date and returns false without pulling. *)
Theorem update_true_then_false
        (s s1 : State) (repo : Repo) (b their_remote : string) :
  gitRepo (self s) = Some repo ->
  active_branch repo = Some b ->
  assoc b (upstream repo) = Some (their_remote, b) ->
  update s = (Ok true, s1) ->
  pulls s1 = S (pulls s) /\
  network_accesses s1 = S (S (network_accesses s)) /\
  fst (update_times 2 s) = [Ok true; Ok false] /\
  pulls (snd (update_times 2 s)) = S (pulls s).
Proof.
  intros Hrepo Hb Hupstream Hupd.
  destruct (@update_then_up_to_date _ _ _ _ _ Hrepo Hb Hupstream Hupd)
    as (s2 & Hnext & Hpulls2).
  assert (Hcount : pulls s1 = S (pulls s) /\
                   network_accesses s1 = S (S (network_accesses s))).
  { destruct (update_cases s) as (Hunsafe & Huptodate & Hbehind).
    pose proof (safeCheck_loaded s Hrepo) as Hsafe.
    destruct (is_dirty repo); simpl in Hsafe.
    { rewrite Hsafe in Hunsafe. rewrite (Hunsafe eq_refl) in Hupd.
      discriminate Hupd. }
    rewrite Hsafe in Huptodate, Hbehind.
    destruct (isUpToDate None s) as [[[|]|e] s'] eqn:Hup.
    { rewrite (Huptodate s' eq_refl eq_refl) in Hupd. discriminate Hupd. }
    2:{ unfold update in Hupd. rewrite (@bind_ok _ _ _ _ _ _ _ Hsafe) in Hupd.
        simpl in Hupd. rewrite (@bind_raise _ _ _ _ _ _ _ Hup) in Hupd.
        discriminate Hupd. }
    destruct (Hbehind s' eq_refl eq_refl) as (remote & _ & Hpulled).
    rewrite Hpulled in Hupd.
    pose proof (pull_trace remote s') as Htrace.
    unfold pulled in Hupd.
    destruct (pull remote s') as [[u|e] s1'] eqn:Hpull; [|discriminate Hupd].
    injection Hupd as <-. simpl in Htrace.
    apply isUpToDate_inv in Hup.
    destruct Hup as (repo' & remote' & b' & ours & theirs &
                     _ & _ & _ & _ & _ & _ & _ & ->).
    unfold pulls, network_accesses. rewrite Htrace. simpl. auto. }
  destruct Hcount as (Hp & Hn).
  split; [exact Hp|]. split; [exact Hn|].
  cbn [update_times]. rewrite Hupd, Hnext. simpl.
  split; [reflexivity | congruence].
Qed.

Lemma update_true_then_false_witness :
  fst (update_times 2 behind) = [Ok true; Ok false] /\
  pulls (snd (update_times 2 behind)) = 1.
Proof.
  destruct (@update_true_then_false
              behind (snd (update behind)) (repo_at commit_A clean [origin])
              "main" "origin" eq_refl eq_refl eq_refl eq_refl)
    as (_ & _ & Hres & Hpulls).
  split; [exact Hres | exact Hpulls].
Defined.

(** Without that configuration it can: here the upstream of [main] is
    [dev], the pull merges [dev], and the server's [main] stays ahead. *)
Example update_true_twice_with_other_upstream :
  fst (update_times 2 tracks_dev) = [Ok true; Ok true].
Proof. reflexivity. Qed.

(** X15: on a clean working tree with the remote reachable and the current
    branch present on both sides, [update] pulls exactly when the server's
    commit is not already contained in the local branch: when it is (the
    branches are equal, or the local one is ahead) [update] returns false
    without pulling; when it is not, [update] pulls once. *)
Theorem update_pulls_iff_remote_not_contained
        (s : State) (repo : Repo) (remote : Remote) (b : string)
        (ours theirs : Commit) :
  gitRepo (self s) = Some repo ->
  gitRemote (self s) = Some remote ->
  is_dirty repo = false ->
  network_up (env s) = true ->
  active_branch repo = Some b ->
  assoc b (heads repo) = Some ours ->
  assoc b (server_heads (env s)) = Some theirs ->
  (is_ancestor theirs ours = true ->
   fst (update s) = Ok false /\ pulls (snd (update s)) = pulls s) /\
  (is_ancestor theirs ours = false ->
   pulls (snd (update s)) = S (pulls s) /\ fst (update s) <> Ok false).
Proof.
  intros Hrepo Hremote Hclean Hnet Hb Hours Htheirs.
  pose proof (@isUpToDate_returns s repo remote None b ours theirs
                Hrepo Hremote Hnet Hb Hours Htheirs) as Hup.
  pose proof (safeCheck_loaded s Hrepo) as Hsafe. rewrite Hclean in Hsafe.
  simpl in Hsafe.
  destruct (update_cases s) as (_ & Huptodate & Hbehind).
  rewrite Hsafe in Huptodate, Hbehind.
  destruct (@fetched_local_view s repo remote
              (fetch_info (remote_name remote) (tracking repo) (b, theirs))
              Hrepo) as (_ & Hpulls & _).
  split; intros Hanc; rewrite Hanc in Hup.
  - rewrite (Huptodate _ eq_refl Hup). simpl. auto.
  - destruct (Hbehind _ eq_refl Hup) as (remote' & _ & Hupd).
    rewrite Hupd, pulled_pulls, Hpulls. split; [reflexivity|].
    unfold pulled. destruct (pull remote' _) as [[u|e] s2]; discriminate.
Qed.

Lemma update_pulls_iff_remote_not_contained_witness :
  (fst (update in_sync) = Ok false /\ pulls (snd (update in_sync)) = 0) /\
  (pulls (snd (update behind)) = 1 /\ fst (update behind) <> Ok false).
Proof.
  split.
  - exact (proj1 (@update_pulls_iff_remote_not_contained
                    in_sync (repo_at commit_A clean [origin]) origin "main"
                    commit_A commit_A
                    eq_refl eq_refl eq_refl eq_refl eq_refl eq_refl eq_refl)
                 eq_refl).
  - exact (proj2 (@update_pulls_iff_remote_not_contained
                    behind (repo_at commit_A clean [origin]) origin "main"
                    commit_A commit_B
                    eq_refl eq_refl eq_refl eq_refl eq_refl eq_refl eq_refl)
                 eq_refl).
Defined.
